(** * A fading-trail animation: the frame updater of [post.ipynb]

    The notebook builds a circular trajectory ([t], [x], [y]), one head
    marker [pt] and [n_trails] trail markers of decreasing opacity, and hands
    the two callbacks [init] and [update] to Matplotlib's [FuncAnimation].

    The embedding keeps the shape of the code: the axes own a list of
    [Line2D] artists, [pt] and [trails] are references (positions in that
    list), [set_data] mutates the artist a reference points to, NumPy
    indexing is a partial function with Python's negative-index wrap-around,
    and [update] runs in the option monad, [None] standing for a raised
    [IndexError]. *)

From Stdlib Require Import ZArith List Lia Reals Lra.
From stdpp Require Import base option list strings.

Local Open Scope Z_scope.

(** ** Artists *)

(** A [matplotlib.lines.Line2D]: the data arrays that [set_data] replaces
    and the style given to [ax.plot] ([ms], [color]/[c], [alpha], [zorder];
    [None] is a keyword the call leaves at its default; [linestyle="none"]
    and [marker="o"], the same for every marker, are left out).  A scalar
    handed to [set_data] is stored as a one-element array. *)
Record Line2D (T : Type) : Type := mkLine2D {
  xdata : list T;
  ydata : list T;
  ms : Z;
  color : string;
  alpha : option T;
  zorder : option Z
}.

Arguments mkLine2D {T} _ _ _ _ _ _.
Arguments xdata {T} _.
Arguments ydata {T} _.
Arguments ms {T} _.
Arguments color {T} _.
Arguments alpha {T} _.
Arguments zorder {T} _.

(** The globals of the notebook after the plotting cell has run: the
    artists of [ax] and the two names bound to them. *)
Record state (T : Type) : Type := mkState {
  ax_lines : list (Line2D T);
  pt : nat;
  trails : list nat
}.

Arguments mkState {T} _ _ _.
Arguments ax_lines {T} _.
Arguments pt {T} _.
Arguments trails {T} _.

(** [for ... in l: body], where the body may raise. *)
Fixpoint for_each {A S : Type} (body : S -> A -> option S) (l : list A) (s : S)
  : option S :=
  match l with
  | [] => Some s
  | a :: l' => s' ← body s a; for_each body l' s'
  end.

(** [range(n)] *)
Definition py_range (n : nat) : list Z := Z.of_nat <$> seq 0 n.

(** [a[k]] on a one-dimensional array: a negative [k] counts from the end,
    anything outside [-len(a) <= k < len(a)] raises [IndexError]. *)
Definition getitem {T : Type} (a : list T) (k : Z) : option T :=
  let n := Z.of_nat (length a) in
  if k <? 0
  then (if 0 <=? n + k then a !! Z.to_nat (n + k) else None)
  else a !! Z.to_nat k.

(** An indexing operator without the wrap-around: a negative index is an
    error.  Not used by the notebook; [update] is compared against it. *)
Definition getitem_nonneg {T : Type} (a : list T) (k : Z) : option T :=
  if k <? 0 then None else a !! Z.to_nat k.

Section Animation.

Context {T : Type}.

(** [x], [y]: the trajectory; [alphas]: [np.linspace(1.0, 0, n_trails)];
    [n_trails]: the global of that name. *)
Variables (x y : list T) (alphas : list T) (n_trails : Z).

(** [Line2D.set_data(xs, ys)] *)
Definition set_data (xs ys : list T) (l : Line2D T) : Line2D T :=
  {| xdata := xs; ydata := ys; ms := ms l; color := color l;
     alpha := alpha l; zorder := zorder l |}.

(** [h.set_data(xs, ys)] through a reference [h].  A reference always
    points to an artist of [ax]; on a position outside the list (which no
    reference made by [ax_plot] is) nothing changes. *)
Definition call_set_data (h : nat) (xs ys : list T) (st : state T) : state T :=
  {| ax_lines := alter (set_data xs ys) h (ax_lines st);
     pt := pt st; trails := trails st |}.

(** [(l,) = ax.plot([], [], ...)]: a new artist is appended to the axes
    and a reference to it returned. *)
Definition ax_plot (l : Line2D T) (ax : list (Line2D T))
  : nat * list (Line2D T) :=
  (length ax, ax ++ [l]).

(** The plotting cell up to the definition of [init]. *)
Definition setup : state T :=
  let '(pt, ax) := ax_plot (mkLine2D [] [] 15 "r" None None) [] in
  let '(trails, ax) :=
    fold_left
      (fun '(trails, ax) a =>
         let '(l, ax) :=
           ax_plot (mkLine2D [] [] 6 "w" (Some a) (Some (-1000))) ax in
         (trails ++ [l], ax))
      alphas ([], ax) in
  {| ax_lines := ax; pt := pt; trails := trails |}.

(** [def init()] *)
Definition init (st : state T) : state T * list nat :=
  let st := call_set_data (pt st) [] [] st in
  let st := fold_left (fun s trail => call_set_data trail [] [] s)
                      (trails st) st in
  (st, pt st :: trails st).

Section Indexing.

(** The indexing operator of the trajectory arrays. *)
Variable get : list T -> Z -> option T.

(** One iteration of the loop of [update]. *)
Definition trail_step (ix : Z) (st : state T) (jt : Z * nat)
  : option (state T) :=
  let '(j, trail) := jt in
  if ix + j <? 0 then Some st
  else
    xv ← get x (ix + j);
    yv ← get y (ix + j);
    Some (call_set_data trail [xv] [yv] st).

Definition update_with (i : Z) (st : state T) : option (state T * list nat) :=
  let ix := i - n_trails in
  xi ← get x i;
  yi ← get y i;
  let st := call_set_data (pt st) [xi] [yi] st in
  st ← for_each (trail_step ix)
         (zip (reverse (py_range (length (trails st)))) (trails st)) st;
  Some (st, pt st :: trails st).

End Indexing.

(** [def update(i)] *)
Definition update : Z -> state T -> option (state T * list nat) :=
  update_with getitem.

(** [update] over an indexing operator that refuses negative indices. *)
Definition update_nonneg : Z -> state T -> option (state T * list nat) :=
  update_with getitem_nonneg.

(** The calls [update(k)] for [k] in [ks], in that order; each frame is
    what the axes show after its call. *)
Fixpoint play (ks : list Z) (st : state T)
  : option (state T * list (list (Line2D T))) :=
  match ks with
  | [] => Some (st, [])
  | k :: ks' =>
      '(st1, _) ← update k st;
      '(st2, fs) ← play ks' st1;
      Some (st2, ax_lines st1 :: fs)
  end.

(** [animation.FuncAnimation(fig, update, n_frames, init_func=init)]
    drawn once: [init_func] first, then [update] over [range(n_frames)]
    (an integer [frames] stands for [range(frames)]). *)
Definition FuncAnimation (n_frames : Z) (st : state T)
  : option (state T * list (list (Line2D T))) :=
  play (py_range (Z.to_nat n_frames)) (fst (init st)).

(** ** Reading the marker set *)

(** The artist behind the head marker. *)
Definition head (st : state T) : option (Line2D T) :=
  ax_lines st !! pt st.

(** The artist of [trails[p]]. *)
Definition trail (st : state T) (p : nat) : option (Line2D T) :=
  h ← trails st !! p; ax_lines st !! h.

(** The trail slot paired with loop index [j] by
    [zip(range(len(trails))[::-1], trails)]: [trails[len(trails)-1-j]].
    Slot [0] is the most transparent marker (the oldest sample), slot
    [len(trails)-1] the most opaque (the newest). *)
Definition slot (st : state T) (j : Z) : option (Line2D T) :=
  if (0 <=? j) && (j <? Z.of_nat (length (trails st)))
  then trail st (length (trails st) - 1 - Z.to_nat j)%nat
  else None.

(** What [ax.plot] fixed for an artist, as opposed to its data. *)
Definition style (l : Line2D T) : Z * string * option T * option Z :=
  (ms l, color l, alpha l, zorder l).

(** The positions of the markers: the data of the head, then of the
    trails in the order of the list [trails]. *)
Definition data (o : option (Line2D T)) : list T * list T :=
  match o with
  | Some l => (xdata l, ydata l)
  | None => ([], [])
  end.

Definition positions (st : state T) : list (list T * list T) :=
  data (head st)
  :: ((fun p => data (trail st p)) <$> seq 0 (length (trails st))).

(** A marker is drawn when it holds data, undrawn when both arrays are
    empty. *)
Definition drawn (l : Line2D T) : bool :=
  match xdata l, ydata l with
  | [], [] => false
  | _, _ => true
  end.

Definition drawn_ref (st : state T) (h : nat) : bool :=
  match ax_lines st !! h with
  | Some l => drawn l
  | None => false
  end.

(** Number of drawn trail slots. *)
Definition drawn_count (st : state T) : nat :=
  length (List.filter (drawn_ref st) (trails st)).

(** ** The effect of [update] when no index is out of range

    [sample a k] is the array [set_data] stores for the scalar [a[k]] at
    an index [0 <= k < len(a)]; [update_effect i] performs the writes of
    [update(i)] with every read replaced by [sample]. *)
Definition sample (a : list T) (k : Z) : list T :=
  option_list (a !! Z.to_nat k).

Definition written (k : Z) (l : Line2D T) : Line2D T :=
  set_data (sample x k) (sample y k) l.

Definition trail_effect (ix : Z) (st : state T) (jt : Z * nat) : state T :=
  if ix + jt.1 <? 0 then st
  else call_set_data jt.2 (sample x (ix + jt.1)) (sample y (ix + jt.1)) st.

Definition update_effect (i : Z) (st : state T) : state T :=
  let st := call_set_data (pt st) (sample x i) (sample y i) st in
  fold_left (trail_effect (i - n_trails))
    (zip (reverse (py_range (length (trails st)))) (trails st)) st.

(** [update(0); update(1); ...; update(i)], the return values dropped. *)
Definition updates_to (i : Z) (st : state T) : option (state T) :=
  for_each (fun s k => fst <$> update k s) (py_range (Z.to_nat (i + 1))) st.

End Animation.

(** ** The trajectory and the notebook as a whole

    NumPy computes in binary64; here the arrays hold real numbers, so
    [linspace], [sin] and [cos] are the exact functions the floating-point
    ones approximate.  Lengths, indices and the order of the samples do not
    depend on that reading. *)

(** [np.linspace(start, stop, num)] (with [endpoint=True]), following
    NumPy's implementation: [arange(0, num) * step + start], the last sample
    overwritten by [stop]; a negative [num] raises [ValueError]. *)
Definition linspace (start stop : R) (num : Z) : option (list R) :=
  if num <? 0 then None
  else
    let div := num - 1 in
    let delta := (stop - start)%R in
    let y := IZR <$> py_range (Z.to_nat num) in
    let y :=
      if 0 <? div then
        let step := (delta / IZR div)%R in
        if Req_dec_T step 0
        then (fun v => v / IZR div * delta)%R <$> y
        else (fun v => v * step)%R <$> y
      else (fun v => v * delta)%R <$> y in
    let y := (fun v => v + start)%R <$> y in
    Some (if 1 <? num then <[(length y - 1)%nat := stop]> y else y).

(** The sample [linspace] puts at position [k]. *)
Definition linspace_value (start stop : R) (num : Z) (k : Z) : R :=
  if num <=? 1 then start
  else (start + IZR k * ((stop - start) / IZR (num - 1)))%R.

Module Notebook.

Definition n_frames : Z := 128.
Definition n_trails : Z := 8.

(** [t = np.linspace(0, 10, n_frames); x = np.sin(t); y = np.cos(t)],
    as a function of the frame count. *)
Definition trajectory (N : Z) : option (list R * list R * list R) :=
  t ← linspace 0 10 N;
  let x : list R := sin <$> (t : list R) in
  let y : list R := cos <$> (t : list R) in
  Some (t, x, y).

(** The arrays these cells bind for [n_frames = 128] and [n_trails = 8]
    (neither call of [linspace] raises, see [arrays_defined]). *)
Definition t : list R :=
  match trajectory n_frames with Some (t, _, _) => t | None => [] end.
Definition x : list R :=
  match trajectory n_frames with Some (_, x, _) => x | None => [] end.
Definition y : list R :=
  match trajectory n_frames with Some (_, _, y) => y | None => [] end.
Definition alphas : list R := default [] (linspace 1 0 n_trails).

(** The cells of the notebook in order, up to the animation object. *)
Definition run : option (state R * list (list (Line2D R))) :=
  '(t, x, y) ← trajectory n_frames;
  alphas ← linspace 1 0 n_trails;
  FuncAnimation x y n_trails n_frames (setup alphas).

(** [ani.save("circle_anim.mov", ...)]: the animation is drawn once more,
    starting from the marker set the first drawing left behind; its frames
    are the frames of the exported video. *)
Definition save : option (state R * list (list (Line2D R))) :=
  '(st, _) ← run;
  FuncAnimation x y n_trails n_frames st.

End Notebook.

(** A six-frame trajectory with three trails, small enough to run. *)
Module Small.

Definition x : list Z := [10; 11; 12; 13; 14; 15].
Definition y : list Z := [20; 21; 22; 23; 24; 25].
Definition alphas : list Z := [100; 50; 0].
Definition n_trails : Z := 3.

End Small.

(** ** States the notebook can be in *)

Section Reachable.

Context {T : Type}.
Variables (x y : list T) (alphas : list T) (n_trails : Z).

(** The marker set as [setup] leaves it and as any sequence of calls of
    [init] and of [update] (at any index that does not raise) changes it. *)
Inductive reachable : state T -> Prop :=
| reach_setup : reachable (setup alphas)
| reach_init st : reachable st -> reachable (fst (init st))
| reach_update st i st' r :
    reachable st -> update x y n_trails i st = Some (st', r) ->
    reachable st'.

(** References are distinct, point into the axes, and there are
    [n_trails] trail markers. *)
Definition wf (st : state T) : Prop :=
  NoDup (pt st :: trails st) /\
  Forall (fun h => (h < length (ax_lines st))%nat) (pt st :: trails st) /\
  Z.of_nat (length (trails st)) = n_trails.

End Reachable.

(** ** Further readings of the notebook *)

(** [update(k)] for every [k] of [ks], in that order, the return values
    dropped. *)
Definition updates {T : Type} (x y : list T) (n_trails : Z) (ks : list Z)
    (st : state T) : option (state T) :=
  for_each (fun s k => fst <$> update x y n_trails k s) ks st.

(** The position [a[k]] reads when it does not raise. *)
Definition effective_index {T : Type} (a : list T) (k : Z) : nat :=
  Z.to_nat (if k <? 0 then Z.of_nat (length a) + k else k).

(** An artist holds nothing, or the two coordinates of one sample. *)
Definition on_trajectory {T : Type} (x y : list T) (l : Line2D T) : Prop :=
  (xdata l = [] /\ ydata l = []) \/
  exists (m : nat) (xv yv : T),
    x !! m = Some xv /\ y !! m = Some yv /\
    xdata l = [xv] /\ ydata l = [yv].

(** What a call of [update] can have done to an artist: nothing, or one
    [set_data] with the scalars [x[k]] and [y[k]] of some index [k]. *)
Definition touched {T : Type} (x y : list T) (o o' : option (Line2D T)) : Prop :=
  o' = o \/
  exists (l : Line2D T) (k : Z) (xv yv : T),
    o = Some l /\ getitem x k = Some xv /\ getitem y k = Some yv /\
    o' = Some (set_data [xv] [yv] l).

Module Axes.

(** [ax.set_xlim(-1.1, 1.1)] and [ax.set_ylim(-1.1, 1.1)] *)
Definition xlim : R * R := (-11 / 10, 11 / 10)%R.
Definition ylim : R * R := (-11 / 10, 11 / 10)%R.

Definition within (lim : R * R) (v : R) : Prop := (lim.1 < v < lim.2)%R.

(** Every coordinate an artist holds lies inside the limits of the axes. *)
Definition in_view (l : Line2D R) : Prop :=
  Forall (within xlim) (xdata l) /\ Forall (within ylim) (ydata l).

End Axes.

(** * Properties *)

(** ** The code on a small trajectory *)

Example getitem_wraps :
  (getitem Small.x (-1), getitem Small.x (-6), getitem Small.x (-7),
   getitem Small.x 5, getitem Small.x 6)
  = (Some 15, Some 10, None, Some 15, None).
Proof. reflexivity. Qed.

Example small_setup_refs :
  (pt (setup Small.alphas), trails (setup Small.alphas))
  = (0%nat, [1%nat; 2%nat; 3%nat]).
Proof. reflexivity. Qed.

Example small_frame_0 :
  positions <$> (fst <$> update Small.x Small.y Small.n_trails 0
                           (init (setup Small.alphas)).1)
  = Some [([10], [20]); ([], []); ([], []); ([], [])].
Proof. reflexivity. Qed.

Example small_frame_2 :
  positions <$> updates_to Small.x Small.y Small.n_trails 2
                  (init (setup Small.alphas)).1
  = Some [([12], [22]); ([11], [21]); ([10], [20]); ([], [])].
Proof. reflexivity. Qed.

Example small_frame_5 :
  positions <$> updates_to Small.x Small.y Small.n_trails 5
                  (init (setup Small.alphas)).1
  = Some [([15], [25]); ([14], [24]); ([13], [23]); ([12], [22])].
Proof. reflexivity. Qed.

Example small_frame_out_of_range :
  update Small.x Small.y Small.n_trails 6 (init (setup Small.alphas)).1 = None.
Proof. reflexivity. Qed.

Example small_animation_frames :
  length <$> (snd <$> FuncAnimation Small.x Small.y Small.n_trails 6
                        (setup Small.alphas))
  = Some 6%nat.
Proof. reflexivity. Qed.

(** ** Indexing *)

Section IndexingFacts.

Context {T : Type}.
Implicit Types (a : list T) (k : Z).

Lemma getitem_in_range a k :
  0 <= k < Z.of_nat (length a) -> getitem a k = a !! Z.to_nat k.
Proof.
  intros Hk. unfold getitem.
  destruct (Z.ltb_spec k 0); [lia | reflexivity].
Qed.

Lemma getitem_nonneg_in_range a k :
  0 <= k < Z.of_nat (length a) -> getitem_nonneg a k = a !! Z.to_nat k.
Proof.
  intros Hk. unfold getitem_nonneg.
  destruct (Z.ltb_spec k 0); [lia | reflexivity].
Qed.

Lemma lookup_in_range a k :
  0 <= k < Z.of_nat (length a) -> is_Some (a !! Z.to_nat k).
Proof. intros Hk. apply lookup_lt_is_Some. lia. Qed.

Lemma sample_in_range a k v :
  a !! Z.to_nat k = Some v -> sample a k = [v].
Proof. unfold sample. intros ->. reflexivity. Qed.

Lemma py_range_length n : length (py_range n) = n.
Proof. unfold py_range. rewrite length_fmap. apply length_seq. Qed.

Lemma py_range_lookup n p :
  (p < n)%nat -> py_range n !! p = Some (Z.of_nat p).
Proof.
  intros Hp. unfold py_range.
  rewrite list_lookup_fmap, lookup_seq_lt by assumption. reflexivity.
Qed.

Lemma py_range_rev_lookup n p :
  (p < n)%nat -> reverse (py_range n) !! p = Some (Z.of_nat (n - 1 - p)).
Proof.
  intros Hp. rewrite reverse_lookup by (rewrite py_range_length; lia).
  rewrite py_range_length, py_range_lookup by lia.
  f_equal. f_equal. lia.
Qed.

Lemma py_range_S n : py_range (S n) = py_range n ++ [Z.of_nat n].
Proof.
  unfold py_range. rewrite seq_S, fmap_app. reflexivity.
Qed.

End IndexingFacts.

(** ** [update] performs exactly the writes of [update_effect] *)

Section UpdateRuns.

Context {T : Type}.
Variables (x y : list T) (n_trails : Z).

(** Any indexing operator that agrees with list lookup inside
    [0 <= k < len(a)]: both [getitem] and [getitem_nonneg] do. *)
Variable get : list T -> Z -> option T.
Hypothesis get_in_range :
  forall a k, 0 <= k < Z.of_nat (length a) -> get a k = a !! Z.to_nat k.

Hypothesis same_length : length y = length x.

Lemma get_sample a k :
  0 <= k < Z.of_nat (length a) ->
  exists v, get a k = Some v /\ sample a k = [v].
Proof.
  intros Hk. destruct (lookup_in_range a k Hk) as [w Hw].
  exists w. split; [rewrite get_in_range by assumption; exact Hw|].
  apply sample_in_range, Hw.
Qed.

Lemma trail_effect_refs ix st jt :
  pt (trail_effect x y ix st jt) = pt st /\
  trails (trail_effect x y ix st jt) = trails st.
Proof. unfold trail_effect. destruct (ix + jt.1 <? 0); split; reflexivity. Qed.

Lemma fold_trail_effect_refs ix jts st :
  pt (fold_left (trail_effect x y ix) jts st) = pt st /\
  trails (fold_left (trail_effect x y ix) jts st) = trails st.
Proof.
  revert st. induction jts as [|jt jts IH]; intros st; [split; reflexivity|].
  cbn [fold_left]. destruct (IH (trail_effect x y ix st jt)) as [-> ->].
  apply trail_effect_refs.
Qed.

Lemma update_effect_refs i st :
  pt (update_effect x y n_trails i st) = pt st /\
  trails (update_effect x y n_trails i st) = trails st.
Proof.
  unfold update_effect.
  match goal with
  | |- context [fold_left ?f ?l ?s] =>
      destruct (fold_trail_effect_refs (i - n_trails) l s) as [-> ->]
  end.
  split; reflexivity.
Qed.

Lemma trail_step_effect ix st jt :
  ix + jt.1 < Z.of_nat (length x) ->
  trail_step x y get ix st jt = Some (trail_effect x y ix st jt).
Proof.
  destruct jt as [j h]. unfold trail_step, trail_effect. cbn [fst snd].
  intros Hlt. destruct (Z.ltb_spec (ix + j) 0) as [Hneg|Hpos]; [reflexivity|].
  destruct (get_sample x (ix + j)) as (xv & -> & ->); [lia |].
  destruct (get_sample y (ix + j)) as (yv & -> & ->);
    [rewrite same_length; lia |].
  reflexivity.
Qed.

Lemma for_each_trail_effect ix jts st :
  Forall (fun jt => ix + jt.1 < Z.of_nat (length x)) jts ->
  for_each (trail_step x y get ix) jts st
  = Some (fold_left (trail_effect x y ix) jts st).
Proof.
  intros Hall. revert st.
  induction Hall as [|jt jts Hjt _ IH]; intros st; [reflexivity|].
  cbn [for_each fold_left]. rewrite trail_step_effect by exact Hjt.
  cbn. apply IH.
Qed.

Lemma loop_indices_bounded (K : nat) (hs : list nat) jt :
  jt ∈ zip (reverse (py_range K)) hs -> 0 <= jt.1 < Z.of_nat K.
Proof.
  intros Hin. apply list_elem_of_lookup in Hin as [p Hp].
  apply lookup_zip_with_Some in Hp as (j & h & -> & Hj & _). cbn.
  assert (p < K)%nat as HpK.
  { apply lookup_lt_Some in Hj.
    rewrite length_reverse, py_range_length in Hj. exact Hj. }
  rewrite py_range_rev_lookup in Hj by exact HpK.
  injection Hj as <-. lia.
Qed.

Lemma update_with_effect i st :
  0 <= i < Z.of_nat (length x) ->
  Z.of_nat (length (trails st)) <= n_trails ->
  update_with x y n_trails get i st
  = Some (update_effect x y n_trails i st, pt st :: trails st).
Proof.
  intros Hi HK. unfold update_with.
  destruct (get_sample x i) as (xv & -> & Hxs); [exact Hi |].
  destruct (get_sample y i) as (yv & -> & Hys);
    [rewrite same_length; exact Hi |].
  cbn. rewrite for_each_trail_effect.
  - cbn. destruct (update_effect_refs i st) as [Hp Ht].
    unfold update_effect in *. rewrite Hxs, Hys in *. cbn in *.
    rewrite Hp, Ht. reflexivity.
  - apply Forall_forall. intros jt Hjt.
    apply loop_indices_bounded in Hjt. lia.
Qed.

End UpdateRuns.

(** ** What the writes do to each artist *)

Section Effects.

Context {T : Type}.
Variables (x y : list T) (n_trails : Z).

Implicit Types (st : state T) (h : nat).

Lemma call_set_data_trails h (xs ys : list T) st :
  trails (call_set_data h xs ys st) = trails st.
Proof. reflexivity. Qed.

Lemma call_set_data_pt h (xs ys : list T) st :
  pt (call_set_data h xs ys st) = pt st.
Proof. reflexivity. Qed.

Lemma call_set_data_lines h (xs ys : list T) st :
  ax_lines (call_set_data h xs ys st)
  = alter (set_data xs ys) h (ax_lines st).
Proof. reflexivity. Qed.

Lemma set_data_set_data (xs ys xs' ys' : list T) l :
  set_data xs ys (set_data xs' ys' l) = set_data xs ys l.
Proof. reflexivity. Qed.

Lemma fold_trail_effect_length ix jts st :
  length (ax_lines (fold_left (trail_effect x y ix) jts st))
  = length (ax_lines st).
Proof.
  revert st. induction jts as [|jt jts IH]; intros st; [reflexivity|].
  cbn [fold_left]. rewrite IH. unfold trail_effect.
  destruct (ix + jt.1 <? 0); [reflexivity|]. cbn. apply length_alter.
Qed.

Lemma fold_trail_effect_other ix jts st h :
  h ∉ jts.*2 ->
  ax_lines (fold_left (trail_effect x y ix) jts st) !! h = ax_lines st !! h.
Proof.
  revert st. induction jts as [|[j h'] jts IH]; intros st Hnot; [reflexivity|].
  cbn [fold_left]. rewrite fmap_cons in Hnot. cbn in Hnot.
  apply not_elem_of_cons in Hnot as [Hne Hnot].
  rewrite IH by exact Hnot. unfold trail_effect. cbn [fst snd].
  destruct (ix + j <? 0); [reflexivity|]. cbn.
  apply list_lookup_alter_ne. congruence.
Qed.

Lemma fold_trail_effect_lookup ix jts st j h :
  NoDup jts.*2 -> (j, h) ∈ jts ->
  ax_lines (fold_left (trail_effect x y ix) jts st) !! h
  = (if ix + j <? 0 then (fun l => l) else written x y (ix + j)) <$> ax_lines st !! h.
Proof.
  revert st. induction jts as [|[j' h'] jts IH]; intros st Hnd Hin.
  { apply elem_of_nil in Hin. contradiction. }
  rewrite fmap_cons in Hnd. cbn in Hnd. apply NoDup_cons in Hnd as [Hfresh Hnd].
  cbn [fold_left]. apply elem_of_cons in Hin as [Heq|Hin].
  - injection Heq as <- <-.
    rewrite fold_trail_effect_other by exact Hfresh.
    unfold trail_effect. cbn [fst snd].
    destruct (ix + j <? 0).
    + destruct (ax_lines st !! h); reflexivity.
    + cbn. apply list_lookup_alter_eq.
  - rewrite IH by assumption. f_equal.
    assert (h' <> h) as Hne.
    { intros ->. apply Hfresh. apply list_elem_of_fmap. exists (j, h). auto. }
    unfold trail_effect. cbn [fst snd].
    destruct (ix + j' <? 0); [reflexivity|]. cbn.
    apply list_lookup_alter_ne. exact Hne.
Qed.

Lemma loop_pairs (hs : list nat) p h :
  hs !! p = Some h ->
  (Z.of_nat (length hs - 1 - p), h) ∈ zip (reverse (py_range (length hs))) hs.
Proof.
  intros Hp. apply list_elem_of_lookup. exists p.
  apply lookup_zip_with_Some. eexists _, _. split; [reflexivity|].
  split; [|exact Hp].
  apply py_range_rev_lookup. apply lookup_lt_Some in Hp. exact Hp.
Qed.

Lemma loop_refs (hs : list nat) :
  (zip (reverse (py_range (length hs))) hs).*2 = hs.
Proof.
  apply snd_zip. rewrite length_reverse, py_range_length. lia.
Qed.

Lemma update_effect_length i st :
  length (ax_lines (update_effect x y n_trails i st)) = length (ax_lines st).
Proof.
  unfold update_effect. rewrite fold_trail_effect_length. cbn.
  apply length_alter.
Qed.

Lemma update_effect_head i st :
  NoDup (pt st :: trails st) ->
  ax_lines (update_effect x y n_trails i st) !! pt st
  = written x y i <$> ax_lines st !! pt st.
Proof.
  intros Hnd. apply NoDup_cons in Hnd as [Hfresh _].
  unfold update_effect. rewrite ?call_set_data_trails, ?call_set_data_pt.
  rewrite fold_trail_effect_other.
  - rewrite call_set_data_lines. apply list_lookup_alter_eq.
  - rewrite loop_refs. exact Hfresh.
Qed.

Lemma update_effect_trail i st p h :
  NoDup (pt st :: trails st) ->
  trails st !! p = Some h ->
  let k := i - n_trails + Z.of_nat (length (trails st) - 1 - p) in
  ax_lines (update_effect x y n_trails i st) !! h
  = (if k <? 0 then (fun l => l) else written x y k) <$> ax_lines st !! h.
Proof.
  intros Hnd Hp k. apply NoDup_cons in Hnd as [Hfresh Hnd].
  unfold update_effect. rewrite ?call_set_data_trails, ?call_set_data_pt.
  rewrite (fold_trail_effect_lookup _ _ _ (Z.of_nat (length (trails st) - 1 - p)) h).
  - fold k. f_equal. rewrite call_set_data_lines. apply list_lookup_alter_ne.
    intros Heq. apply Hfresh. rewrite Heq.
    eapply list_elem_of_lookup_2, Hp.
  - rewrite loop_refs. exact Hnd.
  - apply loop_pairs, Hp.
Qed.

Lemma update_effect_other i st h :
  h ∉ pt st :: trails st ->
  ax_lines (update_effect x y n_trails i st) !! h = ax_lines st !! h.
Proof.
  intros Hnot. apply not_elem_of_cons in Hnot as [Hne Hnot].
  unfold update_effect. rewrite ?call_set_data_trails, ?call_set_data_pt.
  rewrite fold_trail_effect_other.
  - rewrite call_set_data_lines. apply list_lookup_alter_ne. congruence.
  - rewrite loop_refs. exact Hnot.
Qed.

(** [init] empties the head and every trail marker, nothing else. *)
Lemma fold_clear_refs (hs : list nat) st :
  pt (fold_left (fun s h => call_set_data h [] [] s) hs st) = pt st /\
  trails (fold_left (fun s h => call_set_data h [] [] s) hs st) = trails st.
Proof.
  revert st. induction hs as [|h hs IH]; intros st; [split; reflexivity|].
  cbn [fold_left]. destruct (IH (call_set_data h [] [] st)) as [-> ->].
  split; reflexivity.
Qed.

Lemma fold_clear_lookup (hs : list nat) st h :
  ax_lines (fold_left (fun s h => call_set_data h [] [] s) hs st) !! h
  = (if decide (h ∈ hs) then set_data [] [] else (fun l => l)) <$> ax_lines st !! h.
Proof.
  revert st. induction hs as [|h' hs IH]; intros st.
  { cbn. rewrite decide_False by apply not_elem_of_nil.
    destruct (ax_lines st !! h); reflexivity. }
  cbn [fold_left]. rewrite IH. cbn.
  rewrite list_lookup_alter.
  destruct (decide (h' = h)) as [->|Hne].
  - rewrite (decide_True (P := h ∈ h :: hs)) by apply list_elem_of_here.
    destruct (ax_lines st !! h); [|reflexivity]. cbn.
    destruct (decide (h ∈ hs)); reflexivity.
  - destruct (decide (h ∈ hs)) as [Hin|Hnin].
    + rewrite decide_True by (apply list_elem_of_further; exact Hin).
      reflexivity.
    + rewrite decide_False; [reflexivity|].
      intros Hin. apply elem_of_cons in Hin as [->|Hin]; contradiction.
Qed.

Lemma init_refs st :
  pt (init st).1 = pt st /\ trails (init st).1 = trails st /\
  (init st).2 = pt st :: trails st.
Proof.
  unfold init. cbn.
  destruct (fold_clear_refs (trails st) (call_set_data (pt st) [] [] st))
    as [-> ->]. repeat split.
Qed.

Lemma init_lookup st h :
  ax_lines (init st).1 !! h
  = (if decide (h ∈ pt st :: trails st) then set_data [] [] else (fun l => l))
      <$> ax_lines st !! h.
Proof.
  unfold init. cbn. rewrite fold_clear_lookup. cbn.
  rewrite list_lookup_alter.
  destruct (decide (pt st = h)) as [<-|Hne].
  - rewrite (decide_True (P := pt st ∈ pt st :: trails st))
      by apply list_elem_of_here.
    destruct (ax_lines st !! pt st); [|reflexivity]. cbn.
    destruct (decide (pt st ∈ trails st)); reflexivity.
  - destruct (decide (h ∈ trails st)) as [Hin|Hnin].
    + rewrite decide_True by (apply list_elem_of_further; exact Hin).
      reflexivity.
    + rewrite decide_False; [reflexivity|].
      intros Hin. apply elem_of_cons in Hin as [->|Hin]; contradiction.
Qed.

Lemma init_length st :
  length (ax_lines (init st).1) = length (ax_lines st).
Proof.
  apply Nat.le_antisymm.
  - destruct (Nat.le_gt_cases (length (ax_lines (init st).1))
                (length (ax_lines st))) as [Hle|Hgt]; [exact Hle|].
    apply lookup_lt_is_Some in Hgt. rewrite init_lookup in Hgt.
    rewrite lookup_ge_None_2 in Hgt by lia. destruct Hgt as [? Hgt]. discriminate.
  - destruct (Nat.le_gt_cases (length (ax_lines st))
                (length (ax_lines (init st).1))) as [Hle|Hgt]; [exact Hle|].
    pose proof (lookup_ge_None_2 (ax_lines (init st).1)
                  (length (ax_lines (init st).1)) (Nat.le_refl _)) as Hnone.
    rewrite init_lookup in Hnone.
    apply lookup_lt_is_Some in Hgt. destruct Hgt as [l Hl].
    rewrite Hl in Hnone. discriminate.
Qed.

End Effects.

(** ** The marker set: references and styles never change *)

Section MarkerSet.

Context {T : Type}.
Variables (x y : list T) (alphas : list T) (n_trails : Z).

Implicit Types (st : state T) (h : nat).

Lemma setup_loop (al : list T) (tr : list nat) (ax : list (Line2D T)) :
  fold_left
    (fun '(trails, ax) a =>
       let '(l, ax) :=
         ax_plot (mkLine2D [] [] 6 "w" (Some a) (Some (-1000))) ax in
       (trails ++ [l], ax))
    al (tr, ax)
  = (tr ++ seq (length ax) (length al),
     ax ++ ((fun a => mkLine2D [] [] 6 "w" (Some a) (Some (-1000))) <$> al)).
Proof.
  revert tr ax. induction al as [|a al IH]; intros tr ax.
  - cbn. rewrite !app_nil_r. reflexivity.
  - cbn [fold_left ax_plot]. rewrite IH. rewrite length_app. cbn [length].
    rewrite <- !app_assoc. cbn. rewrite Nat.add_1_r. reflexivity.
Qed.

Lemma setup_eq :
  setup alphas
  = {| ax_lines :=
         mkLine2D [] [] 15 "r" None None
         :: ((fun a => mkLine2D [] [] 6 "w" (Some a) (Some (-1000))) <$> alphas);
       pt := 0%nat;
       trails := seq 1 (length alphas) |}.
Proof. unfold setup. cbn [ax_plot]. rewrite setup_loop. reflexivity. Qed.

Lemma alter_set_data_style (xs ys : list T) h (ls : list (Line2D T)) :
  style <$> alter (set_data xs ys) h ls = style <$> ls.
Proof.
  apply list_eq. intros k. rewrite !list_lookup_fmap, list_lookup_alter.
  destruct (decide (h = k)) as [->|]; [|reflexivity].
  destruct (ls !! k); reflexivity.
Qed.

Lemma init_style st :
  style <$> ax_lines (init st).1 = style <$> ax_lines st.
Proof.
  apply list_eq. intros k. rewrite !list_lookup_fmap, init_lookup.
  destruct (ax_lines st !! k); [|reflexivity]. cbn.
  destruct (decide (k ∈ pt st :: trails st)); reflexivity.
Qed.

(** Whatever the index, a call of [update] that returns hands back the
    head followed by the trails and leaves references and styles alone. *)
Lemma for_each_trail_step_frame ix jts st st' :
  for_each (trail_step x y getitem ix) jts st = Some st' ->
  pt st' = pt st /\ trails st' = trails st /\
  style <$> ax_lines st' = style <$> ax_lines st.
Proof.
  revert st. induction jts as [|[j h] jts IH]; intros st Hrun.
  - cbn in Hrun. injection Hrun as <-. repeat split.
  - cbn [for_each] in Hrun.
    destruct (trail_step x y getitem ix st (j, h)) as [s1|] eqn:Hstep;
      [|discriminate].
    cbn in Hrun. apply IH in Hrun as (-> & -> & ->).
    unfold trail_step in Hstep.
    destruct (ix + j <? 0).
    { injection Hstep as <-. repeat split. }
    destruct (getitem x (ix + j)); [|discriminate].
    destruct (getitem y (ix + j)); [|discriminate].
    cbn in Hstep. injection Hstep as <-. cbn.
    repeat split. apply alter_set_data_style.
Qed.

Lemma update_frame i st st' r :
  update x y n_trails i st = Some (st', r) ->
  r = pt st :: trails st /\ pt st' = pt st /\ trails st' = trails st /\
  style <$> ax_lines st' = style <$> ax_lines st.
Proof.
  unfold update, update_with. intros Hrun.
  destruct (getitem x i); [|discriminate].
  destruct (getitem y i); [|discriminate].
  cbn in Hrun.
  match type of Hrun with
  | context [for_each ?f ?l ?s] => destruct (for_each f l s) as [s1|] eqn:Hloop
  end; [|discriminate].
  cbn in Hrun. injection Hrun as <- <-.
  apply for_each_trail_step_frame in Hloop as (-> & -> & ->). cbn.
  repeat split. apply alter_set_data_style.
Qed.

Lemma fmap_style_length (l1 l2 : list (Line2D T)) :
  style <$> l1 = style <$> l2 -> length l1 = length l2.
Proof.
  intros Heq. apply (f_equal length) in Heq.
  rewrite !length_fmap in Heq. exact Heq.
Qed.

(** Every reachable state has the references and styles of [setup]. *)
Lemma reachable_marker_set st :
  reachable x y alphas n_trails st ->
  pt st = 0%nat /\ trails st = seq 1 (length alphas) /\
  style <$> ax_lines st = style <$> ax_lines (setup alphas).
Proof.
  induction 1 as [|st Hreach (IHp & IHt & IHs)
                  |st i st' r Hreach (IHp & IHt & IHs) Hup].
  - rewrite setup_eq. repeat split.
  - destruct (init_refs st) as (-> & -> & _). rewrite init_style. auto.
  - apply update_frame in Hup as (_ & -> & -> & ->). auto.
Qed.

Lemma reachable_length st :
  reachable x y alphas n_trails st ->
  length (ax_lines st) = S (length alphas).
Proof.
  intros Hreach. apply reachable_marker_set in Hreach as (_ & _ & Hs).
  apply fmap_style_length in Hs. rewrite Hs, setup_eq. cbn.
  rewrite length_fmap. reflexivity.
Qed.

Lemma reachable_wf st :
  Z.of_nat (length alphas) = n_trails ->
  reachable x y alphas n_trails st -> wf n_trails st.
Proof.
  intros HK Hreach. pose proof (reachable_length st Hreach) as Hlen.
  apply reachable_marker_set in Hreach as (Hp & Ht & _).
  unfold wf. rewrite Hp, Ht, Hlen. split; [|split].
  - change (0%nat :: seq 1 (length alphas)) with (seq 0 (S (length alphas))).
    apply NoDup_seq.
  - change (0%nat :: seq 1 (length alphas)) with (seq 0 (S (length alphas))).
    apply Forall_forall. intros h Hh. apply elem_of_seq in Hh. lia.
  - rewrite length_seq. exact HK.
Qed.

End MarkerSet.

(** ** [linspace] *)

Section Linspace.

Variables (start stop : R) (num : Z).
Hypothesis num_nonneg : 0 <= num.

Lemma linspace_closed_form :
  linspace start stop num
  = Some (linspace_value start stop num <$> py_range (Z.to_nat num)).
Proof.
  unfold linspace. destruct (Z.ltb_spec num 0) as [|_]; [lia|]. f_equal.
  apply list_eq. intros k.
  set (n := Z.to_nat num).
  destruct (Nat.lt_ge_cases k n) as [Hk|Hk].
  - rewrite (list_lookup_fmap _ (py_range n)), py_range_lookup by exact Hk.
    cbn [fmap option_fmap option_map].
    unfold linspace_value.
    destruct (Z.ltb_spec 1 num) as [Hnum|Hnum].
    + destruct (Z.leb_spec num 1) as [|_]; [lia|].
      destruct (Z.ltb_spec 0 (num - 1)) as [_|]; [|lia].
      assert (IZR (num - 1) <> 0%R) as Hdiv.
      { apply not_0_IZR. lia. }
      destruct (Req_dec_T ((stop - start) / IZR (num - 1)) 0) as [Hz|Hnz];
        rewrite list_lookup_insert, !length_fmap, py_range_length;
        rewrite !list_lookup_fmap, py_range_lookup by exact Hk;
        cbn [fmap option_fmap option_map];
        (destruct (decide ((n - 1)%nat = k ∧ (n - 1 < n)%nat)) as [[<- _]|_];
         [ f_equal; replace (Z.of_nat (n - 1)) with (num - 1) by lia;
           field; exact Hdiv | f_equal ]).
      * rewrite Hz.
        assert (stop - start = 0)%R as ->; [|lra].
        apply (Rmult_eq_compat_r (IZR (num - 1))) in Hz.
        unfold Rdiv in Hz. rewrite Rmult_assoc, Rinv_l in Hz by exact Hdiv.
        lra.
      * lra.
    + destruct (Z.leb_spec num 1) as [_|]; [|lia].
      destruct (Z.ltb_spec 0 (num - 1)) as [|_]; [lia|].
      rewrite !list_lookup_fmap, py_range_lookup by exact Hk. cbn.
      f_equal. assert (k = 0)%nat as -> by lia.
      change (Z.of_nat 0) with 0. lra.
  - rewrite (lookup_ge_None_2 (_ <$> py_range n))
      by (rewrite length_fmap, py_range_length; exact Hk).
    apply lookup_ge_None_2.
    destruct (1 <? num); destruct (0 <? num - 1);
      try destruct (Req_dec_T _ _);
      rewrite ?length_insert, !length_fmap, py_range_length; exact Hk.
Qed.

Lemma linspace_length l :
  linspace start stop num = Some l -> length l = Z.to_nat num.
Proof.
  rewrite linspace_closed_form. intros [= <-].
  rewrite length_fmap. apply py_range_length.
Qed.

Lemma linspace_lookup l (k : nat) :
  linspace start stop num = Some l -> (k < Z.to_nat num)%nat ->
  l !! k = Some (linspace_value start stop num (Z.of_nat k)).
Proof.
  rewrite linspace_closed_form. intros [= <-] Hk.
  rewrite list_lookup_fmap, py_range_lookup by exact Hk. reflexivity.
Qed.

End Linspace.

(** ** Frames on a well-formed marker set *)

Section Frames.

Context {T : Type}.
Variables (x y : list T) (n_trails : Z).

Implicit Types (st : state T) (h p : nat) (i : Z).

Lemma state_ext st st' :
  pt st = pt st' -> trails st = trails st' ->
  (forall h, ax_lines st !! h = ax_lines st' !! h) -> st = st'.
Proof.
  destruct st, st'. cbn. intros -> -> Hl. f_equal. apply list_eq, Hl.
Qed.

Lemma update_effect_wf i st :
  wf n_trails st -> wf n_trails (update_effect x y n_trails i st).
Proof.
  unfold wf. destruct (update_effect_refs x y n_trails i st) as [-> ->].
  rewrite update_effect_length. auto.
Qed.

Lemma init_wf st : wf n_trails st -> wf n_trails (init st).1.
Proof.
  unfold wf. destruct (init_refs st) as (-> & -> & _).
  rewrite init_length. auto.
Qed.

(** The three kinds of artists, seen through [head] and [trail]. *)
Lemma head_update_effect i st :
  wf n_trails st ->
  head (update_effect x y n_trails i st) = written x y i <$> head st.
Proof.
  intros (Hnd & _). unfold head.
  destruct (update_effect_refs x y n_trails i st) as [-> _].
  apply update_effect_head, Hnd.
Qed.

Lemma trail_update_effect i st p :
  wf n_trails st ->
  trail (update_effect x y n_trails i st) p
  = (if i - 1 - Z.of_nat p <? 0 then (fun l => l)
     else written x y (i - 1 - Z.of_nat p)) <$> trail st p.
Proof.
  intros (Hnd & _ & HK). unfold trail.
  destruct (update_effect_refs x y n_trails i st) as [_ ->].
  destruct (trails st !! p) as [h|] eqn:Hp; [|reflexivity].
  cbn -[update_effect].
  rewrite (update_effect_trail x y n_trails i st p h Hnd Hp). cbn zeta.
  apply lookup_lt_Some in Hp.
  replace (i - n_trails + Z.of_nat (length (trails st) - 1 - p))
    with (i - 1 - Z.of_nat p) by lia.
  reflexivity.
Qed.

Lemma head_init st : head (init st).1 = set_data [] [] <$> head st.
Proof.
  unfold head. destruct (init_refs st) as (-> & _). rewrite init_lookup.
  rewrite decide_True by apply list_elem_of_here. reflexivity.
Qed.

Lemma trail_init st p : trail (init st).1 p = set_data [] [] <$> trail st p.
Proof.
  unfold trail. destruct (init_refs st) as (_ & -> & _).
  destruct (trails st !! p) as [h|] eqn:Hp; [|reflexivity].
  cbn -[init].
  rewrite init_lookup. rewrite decide_True; [reflexivity|].
  apply list_elem_of_further. eapply list_elem_of_lookup_2, Hp.
Qed.

(** A later frame overwrites every slot an earlier frame wrote. *)
Lemma update_effect_absorb i i' st :
  wf n_trails st -> i <= i' ->
  update_effect x y n_trails i' (update_effect x y n_trails i st)
  = update_effect x y n_trails i' st.
Proof.
  intros Hwf Hle. pose proof (update_effect_wf i st Hwf) as Hwf'.
  pose proof (update_effect_refs x y n_trails i st) as [Hp Ht].
  apply state_ext.
  - destruct (update_effect_refs x y n_trails i' (update_effect x y n_trails i st))
      as [-> _].
    destruct (update_effect_refs x y n_trails i' st) as [-> _]. exact Hp.
  - destruct (update_effect_refs x y n_trails i' (update_effect x y n_trails i st))
      as [_ ->].
    destruct (update_effect_refs x y n_trails i' st) as [_ ->]. exact Ht.
  - intros h. destruct Hwf as (Hnd & _ & HK). destruct Hwf' as (Hnd' & _ & _).
    destruct (decide (h = pt st)) as [->|Hnp].
    + pose proof (update_effect_head x y n_trails i' _ Hnd') as Hhead.
      rewrite Hp in Hhead. rewrite Hhead.
      rewrite !update_effect_head by exact Hnd.
      destruct (ax_lines st !! pt st); reflexivity.
    + destruct (decide (h ∈ trails st)) as [Hin|Hnin].
      * apply list_elem_of_lookup in Hin as [p Hin].
        assert (trails (update_effect x y n_trails i st) !! p = Some h) as Hin'
          by (rewrite Ht; exact Hin).
        rewrite (update_effect_trail x y n_trails i' _ p h Hnd' Hin').
        rewrite (update_effect_trail x y n_trails i' _ p h Hnd Hin).
        rewrite (update_effect_trail x y n_trails i _ p h Hnd Hin).
        cbn zeta. rewrite Ht.
        destruct (ax_lines st !! h); [|reflexivity]. cbn. f_equal.
        destruct (Z.ltb_spec (i' - n_trails + Z.of_nat (length (trails st) - 1 - p)) 0);
          destruct (Z.ltb_spec (i - n_trails + Z.of_nat (length (trails st) - 1 - p)) 0);
          try reflexivity; lia.
      * rewrite !update_effect_other; try reflexivity.
        -- intros Hin. apply elem_of_cons in Hin as [?|?]; contradiction.
        -- intros Hin. apply elem_of_cons in Hin as [?|?]; contradiction.
        -- rewrite Hp, Ht.
           intros Hin. apply elem_of_cons in Hin as [?|?]; contradiction.
Qed.

Hypothesis same_length : length y = length x.

Lemma update_runs i st :
  wf n_trails st -> 0 <= i < Z.of_nat (length x) ->
  update x y n_trails i st
  = Some (update_effect x y n_trails i st, pt st :: trails st).
Proof.
  intros (_ & _ & HK) Hi. apply update_with_effect; try assumption; [|lia].
  intros a k. apply getitem_in_range.
Qed.

Lemma update_nonneg_runs i st :
  wf n_trails st -> 0 <= i < Z.of_nat (length x) ->
  update_nonneg x y n_trails i st
  = Some (update_effect x y n_trails i st, pt st :: trails st).
Proof.
  intros (_ & _ & HK) Hi. apply update_with_effect; try assumption; [|lia].
  intros a k. apply getitem_nonneg_in_range.
Qed.

Lemma for_each_app {A S : Type} (body : S -> A -> option S) l1 l2 s :
  for_each body (l1 ++ l2) s = (s' ← for_each body l1 s; for_each body l2 s').
Proof.
  revert s. induction l1 as [|a l1 IH]; intros s; [reflexivity|].
  cbn [for_each app]. destruct (body s a) as [s1|]; [|reflexivity].
  cbn. apply IH.
Qed.

(** Frames [0..m] in order leave the marker set as frame [m] alone does. *)
Lemma updates_effect (m : nat) st :
  wf n_trails st -> (m < length x)%nat ->
  for_each (fun s k => fst <$> update x y n_trails k s) (py_range (S m)) st
  = Some (update_effect x y n_trails (Z.of_nat m) st).
Proof.
  intros Hwf. induction m as [|m IH]; intros Hm.
  - cbn. rewrite update_runs by (try assumption; lia). reflexivity.
  - rewrite py_range_S, for_each_app, IH by lia. cbn.
    rewrite update_runs by (try apply update_effect_wf; try assumption; lia).
    cbn. f_equal. apply update_effect_absorb; [assumption | lia].
Qed.

Lemma updates_to_effect i st :
  wf n_trails st -> 0 <= i < Z.of_nat (length x) ->
  updates_to x y n_trails i st = Some (update_effect x y n_trails i st).
Proof.
  intros Hwf Hi. unfold updates_to.
  replace (Z.to_nat (i + 1)) with (S (Z.to_nat i)) by lia.
  rewrite updates_effect by (try assumption; lia).
  rewrite Z2Nat.id by lia. reflexivity.
Qed.

End Frames.

(** ** Drawn and undrawn slots *)

Section Drawn.

Context {T : Type}.
Variables (x y : list T) (n_trails : Z).

Implicit Types (st : state T) (h p : nat) (i : Z).

Lemma wf_trail_is_Some st p :
  wf n_trails st -> (p < length (trails st))%nat -> is_Some (trail st p).
Proof.
  intros (_ & Hb & _) Hp. unfold trail.
  destruct (lookup_lt_is_Some_2 _ _ Hp) as [h Hh]. rewrite Hh. cbn.
  apply lookup_lt_is_Some. apply Forall_cons in Hb as [_ Hb].
  rewrite Forall_forall in Hb. apply Hb. eapply list_elem_of_lookup_2, Hh.
Qed.

Lemma wf_head_is_Some st : wf n_trails st -> is_Some (head st).
Proof.
  intros (_ & Hb & _). unfold head. apply lookup_lt_is_Some.
  apply Forall_cons in Hb as [Hb _]. exact Hb.
Qed.

Lemma trail_None st p : (length (trails st) <= p)%nat -> trail st p = None.
Proof. intros Hp. unfold trail. rewrite lookup_ge_None_2 by exact Hp. reflexivity. Qed.

Lemma slot_trail st j :
  0 <= j < Z.of_nat (length (trails st)) ->
  slot st j = trail st (length (trails st) - 1 - Z.to_nat j).
Proof.
  intros Hj. unfold slot.
  destruct (Z.leb_spec 0 j); [|lia].
  destruct (Z.ltb_spec j (Z.of_nat (length (trails st)))); [reflexivity|lia].
Qed.

Lemma written_data k l xv yv :
  x !! Z.to_nat k = Some xv -> y !! Z.to_nat k = Some yv ->
  xdata (written x y k l) = [xv] /\ ydata (written x y k l) = [yv].
Proof.
  intros Hx Hy. unfold written. cbn.
  rewrite (sample_in_range x k xv Hx), (sample_in_range y k yv Hy). auto.
Qed.

Lemma written_drawn k l :
  0 <= k < Z.of_nat (length x) -> drawn (written x y k l) = true.
Proof.
  intros Hk. destruct (lookup_in_range x k Hk) as [xv Hx].
  unfold drawn, written. cbn. rewrite (sample_in_range x k xv Hx). reflexivity.
Qed.

Lemma drawn_ref_trail st p h :
  trails st !! p = Some h ->
  drawn_ref st h = match trail st p with Some l => drawn l | None => false end.
Proof. intros Hp. unfold drawn_ref, trail. rewrite Hp. reflexivity. Qed.

(** Counting a predicate that holds on a prefix of the positions. *)
Lemma count_prefix (f : nat -> bool) (hs : list nat) (m off : nat) :
  (forall p h, hs !! p = Some h -> f h = (off + p <? m)%nat) ->
  length (List.filter f hs) = Nat.min (length hs) (m - off).
Proof.
  revert off. induction hs as [|h hs IH]; intros off Hf; [reflexivity|].
  cbn [List.filter]. pose proof (Hf 0%nat h eq_refl) as Hh.
  rewrite Nat.add_0_r in Hh. rewrite Hh.
  assert (length (List.filter f hs) = Nat.min (length hs) (m - S off)) as Hrec.
  { apply IH. intros p h' Hp. rewrite (Hf (S p) h' Hp). f_equal. lia. }
  destruct (Nat.ltb_spec off m); cbn [length]; rewrite ?Hrec; lia.
Qed.

(** After [init] and frames up to [i], exactly the slots [trails[p]] with
    [p < i] are drawn. *)
Lemma trail_after_init i st p :
  wf n_trails st ->
  trail (update_effect x y n_trails i (init st).1) p
  = (if i - 1 - Z.of_nat p <? 0 then set_data [] []
     else written x y (i - 1 - Z.of_nat p)) <$> trail st p.
Proof.
  intros Hwf.
  rewrite trail_update_effect by (apply init_wf; exact Hwf).
  rewrite trail_init. destruct (trail st p); [|reflexivity]. cbn.
  destruct (i - 1 - Z.of_nat p <? 0); reflexivity.
Qed.

Lemma drawn_count_after_init i st :
  wf n_trails st -> 0 <= i < Z.of_nat (length x) ->
  Z.of_nat (drawn_count (update_effect x y n_trails i (init st).1))
  = Z.max 0 (Z.min n_trails i).
Proof.
  intros Hwf Hi. unfold drawn_count.
  rewrite (count_prefix _ _ (Z.to_nat i) 0).
  - destruct (update_effect_refs x y n_trails i (init st).1) as [_ ->].
    destruct (init_refs st) as (_ & -> & _).
    destruct Hwf as (_ & _ & HK). lia.
  - intros p h Hp. rewrite (drawn_ref_trail _ p h Hp).
    assert (trails st !! p = Some h) as Hp'.
    { destruct (update_effect_refs x y n_trails i (init st).1) as [_ Ht].
      rewrite Ht in Hp. destruct (init_refs st) as (_ & Ht' & _).
      rewrite Ht' in Hp. exact Hp. }
    apply lookup_lt_Some in Hp'.
    rewrite trail_after_init by exact Hwf.
    destruct (wf_trail_is_Some st p Hwf Hp') as [l ->].
    cbn [fmap option_fmap option_map].
    destruct (Z.ltb_spec (i - 1 - Z.of_nat p) 0);
      destruct (Nat.ltb_spec (0 + p) (Z.to_nat i)); try lia.
    + reflexivity.
    + apply written_drawn. lia.
Qed.

End Drawn.

(** ** The arrays of the notebook *)

Module NotebookFacts.

Import Notebook.

Lemma trajectory_closed_form (N : Z) :
  0 <= N ->
  trajectory N
  = Some (linspace_value 0 10 N <$> py_range (Z.to_nat N),
          sin <$> (linspace_value 0 10 N <$> py_range (Z.to_nat N)),
          cos <$> (linspace_value 0 10 N <$> py_range (Z.to_nat N))).
Proof.
  intros HN. unfold trajectory. rewrite linspace_closed_form by exact HN.
  reflexivity.
Qed.

Lemma t_eq : t = linspace_value 0 10 128 <$> py_range 128.
Proof.
  unfold t, n_frames. rewrite trajectory_closed_form by lia. reflexivity.
Qed.

Lemma x_eq : x = sin <$> t.
Proof.
  rewrite t_eq. unfold x, n_frames.
  rewrite trajectory_closed_form by lia. reflexivity.
Qed.

Lemma y_eq : y = cos <$> t.
Proof.
  rewrite t_eq. unfold y, n_frames.
  rewrite trajectory_closed_form by lia. reflexivity.
Qed.

Lemma alphas_eq : alphas = linspace_value 1 0 8 <$> py_range 8.
Proof.
  unfold alphas, n_trails. rewrite linspace_closed_form by lia. reflexivity.
Qed.

Lemma t_length : length t = 128%nat.
Proof. rewrite t_eq, length_fmap. apply py_range_length. Qed.

Lemma x_length : Z.of_nat (length x) = n_frames.
Proof. rewrite x_eq, length_fmap, t_length. reflexivity. Qed.

Lemma y_length : Z.of_nat (length y) = n_frames.
Proof. rewrite y_eq, length_fmap, t_length. reflexivity. Qed.

Lemma alphas_length : Z.of_nat (length alphas) = n_trails.
Proof. rewrite alphas_eq, length_fmap, py_range_length. reflexivity. Qed.

Lemma arrays_defined :
  trajectory n_frames = Some (t, x, y) /\
  linspace 1 0 n_trails = Some alphas.
Proof.
  split.
  - rewrite x_eq, y_eq, t_eq. unfold n_frames.
    rewrite trajectory_closed_form by lia. reflexivity.
  - rewrite alphas_eq. unfold n_trails.
    rewrite linspace_closed_form by lia. reflexivity.
Qed.

Lemma run_eq :
  run = FuncAnimation x y n_trails n_frames (setup alphas).
Proof.
  unfold run. destruct arrays_defined as [-> ->]. reflexivity.
Qed.

Lemma t_lookup (k : nat) :
  (k < 128)%nat -> t !! k = Some (IZR (Z.of_nat k) * (10 / 127))%R.
Proof.
  intros Hk. rewrite t_eq, list_lookup_fmap, py_range_lookup by exact Hk.
  cbn [fmap option_fmap option_map]. unfold linspace_value.
  change (128 <=? 1) with false. change (128 - 1) with 127.
  cbv iota. f_equal. lra.
Qed.

End NotebookFacts.

(** ** Frames of a reachable marker set *)

Section Protocol.

Context {T : Type}.
Variables (x y alphas : list T) (n_trails n_frames : Z).

Hypothesis x_frames : Z.of_nat (length x) = n_frames.
Hypothesis y_frames : Z.of_nat (length y) = n_frames.
Hypothesis alphas_trails : Z.of_nat (length alphas) = n_trails.

Implicit Types (st : state T) (i : Z).

Lemma frames_same_length : length y = length x.
Proof. lia. Qed.

Lemma reach_wf st : reachable x y alphas n_trails st -> wf n_trails st.
Proof. apply reachable_wf, alphas_trails. Qed.

Lemma reach_trails_length st :
  reachable x y alphas n_trails st -> Z.of_nat (length (trails st)) = n_trails.
Proof. intros Hr. apply reach_wf in Hr as (_ & _ & HK). exact HK. Qed.

Lemma reachable_update_runs st i :
  reachable x y alphas n_trails st -> 0 <= i < n_frames ->
  update x y n_trails i st
  = Some (update_effect x y n_trails i st, pt st :: trails st).
Proof.
  intros Hr Hi. apply update_runs;
    [apply frames_same_length | apply reach_wf, Hr | lia].
Qed.

Lemma reachable_update_nonneg_runs st i :
  reachable x y alphas n_trails st -> 0 <= i < n_frames ->
  update_nonneg x y n_trails i st
  = Some (update_effect x y n_trails i st, pt st :: trails st).
Proof.
  intros Hr Hi. apply update_nonneg_runs;
    [apply frames_same_length | apply reach_wf, Hr | lia].
Qed.

Lemma reachable_update_effect st i :
  reachable x y alphas n_trails st -> 0 <= i < n_frames ->
  reachable x y alphas n_trails (update_effect x y n_trails i st).
Proof.
  intros Hr Hi. eapply reach_update; [exact Hr|].
  apply reachable_update_runs; assumption.
Qed.

Lemma reachable_updates_to st i :
  reachable x y alphas n_trails st -> 0 <= i < n_frames ->
  updates_to x y n_trails i st = Some (update_effect x y n_trails i st).
Proof.
  intros Hr Hi. apply updates_to_effect;
    [apply frames_same_length | apply reach_wf, Hr | lia].
Qed.

Lemma reach_trail st p :
  reachable x y alphas n_trails st -> Z.of_nat p < n_trails ->
  is_Some (trail st p).
Proof.
  intros Hr Hp. apply (wf_trail_is_Some n_trails); [apply reach_wf, Hr|].
  apply reach_trails_length in Hr. lia.
Qed.

End Protocol.

(** * The properties of the specification *)

(** ** Number of drawn trail slots *)

(** C1 (as amended).  After [init] and the calls [update(0)], ...,
    [update(i)] in increasing order, with [0 <= i < n_frames], exactly
    [max(0, min(n_trails, i))] trail slots are drawn: [trails[p]] holds the
    sample [i - 1 - p] of the trajectory when [p < i] and is empty
    otherwise. *)
Theorem C1_drawn_trail_slots {T : Type} (x y alphas : list T)
    (n_trails n_frames : Z) (st0 : state T) (i : Z) :
  Z.of_nat (length x) = n_frames ->
  Z.of_nat (length y) = n_frames ->
  Z.of_nat (length alphas) = n_trails ->
  reachable x y alphas n_trails st0 ->
  0 <= i < n_frames ->
  exists st,
    updates_to x y n_trails i (init st0).1 = Some st /\
    Z.of_nat (drawn_count st) = Z.max 0 (Z.min n_trails i) /\
    forall p : nat, Z.of_nat p < n_trails ->
      exists l, trail st p = Some l /\
        if Z.of_nat p <? i
        then drawn l = true /\
             exists xv yv,
               x !! Z.to_nat (i - 1 - Z.of_nat p) = Some xv /\
               y !! Z.to_nat (i - 1 - Z.of_nat p) = Some yv /\
               xdata l = [xv] /\ ydata l = [yv]
        else drawn l = false /\ xdata l = [] /\ ydata l = [].
Proof.
  intros Hx Hy Ha Hreach Hi.
  pose proof (reach_wf x y alphas n_trails Ha st0 Hreach) as Hwf.
  exists (update_effect x y n_trails i (init st0).1).
  split; [|split].
  - apply (reachable_updates_to x y alphas n_trails n_frames); try assumption.
    apply reach_init, Hreach.
  - apply drawn_count_after_init; [exact Hwf | lia].
  - intros p Hp. rewrite trail_after_init by exact Hwf.
    destruct (reach_trail x y alphas n_trails Ha st0 p Hreach Hp) as [l0 ->].
    cbn [fmap option_fmap option_map]. eexists. split; [reflexivity|].
    destruct (Z.ltb_spec (Z.of_nat p) i) as [Hlt|Hge];
      destruct (Z.ltb_spec (i - 1 - Z.of_nat p) 0) as [Hneg|Hpos]; try lia.
    + split; [apply written_drawn; lia|].
      destruct (lookup_in_range x (i - 1 - Z.of_nat p)) as [xv Hxv]; [lia|].
      destruct (lookup_in_range y (i - 1 - Z.of_nat p)) as [yv Hyv]; [lia|].
      exists xv, yv. split; [exact Hxv|]. split; [exact Hyv|].
      apply written_data; assumption.
    + repeat split.
Qed.

(** At frame [0] of the notebook no trail slot is drawn, where
    [max(0, min(n_trails, i + 1))] is [1]. *)
Lemma C1_counterexample :
  exists st,
    updates_to Notebook.x Notebook.y Notebook.n_trails 0
      (init (setup Notebook.alphas)).1 = Some st /\
    Z.of_nat (drawn_count st) <> Z.max 0 (Z.min Notebook.n_trails (0 + 1)).
Proof.
  exists (update_effect Notebook.x Notebook.y Notebook.n_trails 0
            (init (setup Notebook.alphas)).1).
  split.
  - apply (reachable_updates_to _ _ Notebook.alphas _ Notebook.n_frames).
    + apply NotebookFacts.x_length.
    + apply NotebookFacts.y_length.
    + apply NotebookFacts.alphas_length.
    + apply reach_init, reach_setup.
    + unfold Notebook.n_frames. lia.
  - rewrite drawn_count_after_init.
    + unfold Notebook.n_trails. lia.
    + apply (reach_wf Notebook.x Notebook.y Notebook.alphas).
      * apply NotebookFacts.alphas_length.
      * apply reach_setup.
    + rewrite NotebookFacts.x_length. unfold Notebook.n_frames. lia.
Qed.

(** The notebook at frame [5]: five slots drawn. *)
Lemma C1_witness :
  exists st,
    updates_to Notebook.x Notebook.y Notebook.n_trails 5
      (init (setup Notebook.alphas)).1 = Some st /\
    Z.of_nat (drawn_count st) = Z.max 0 (Z.min Notebook.n_trails 5) /\
    forall p : nat, Z.of_nat p < Notebook.n_trails ->
      exists l, trail st p = Some l /\
        if Z.of_nat p <? 5
        then drawn l = true /\
             exists xv yv,
               Notebook.x !! Z.to_nat (5 - 1 - Z.of_nat p) = Some xv /\
               Notebook.y !! Z.to_nat (5 - 1 - Z.of_nat p) = Some yv /\
               xdata l = [xv] /\ ydata l = [yv]
        else drawn l = false /\ xdata l = [] /\ ydata l = [].
Proof.
  apply (C1_drawn_trail_slots Notebook.x Notebook.y Notebook.alphas
           Notebook.n_trails Notebook.n_frames).
  - apply NotebookFacts.x_length.
  - apply NotebookFacts.y_length.
  - apply NotebookFacts.alphas_length.
  - apply reach_setup.
  - unfold Notebook.n_frames. lia.
Defined.

(** ** Slots in loop order *)

Section Slots.

Context {T : Type}.
Variables (x y alphas : list T) (n_trails : Z).

Implicit Types (st : state T) (i j : Z).

Lemma slot_update_effect i st j :
  wf n_trails st -> 0 <= j < n_trails ->
  slot (update_effect x y n_trails i st) j
  = (if i - n_trails + j <? 0 then (fun l => l)
     else written x y (i - n_trails + j)) <$> slot st j.
Proof.
  intros Hwf Hj. pose proof Hwf as (_ & _ & HK).
  destruct (update_effect_refs x y n_trails i st) as [_ Ht].
  rewrite !slot_trail by (rewrite ?Ht; lia). rewrite Ht.
  rewrite trail_update_effect by exact Hwf.
  replace (i - 1 - Z.of_nat (length (trails st) - 1 - Z.to_nat j))
    with (i - n_trails + j) by lia.
  reflexivity.
Qed.

Lemma slot_init st j :
  0 <= j < Z.of_nat (length (trails st)) ->
  slot (init st).1 j = set_data [] [] <$> slot st j.
Proof.
  intros Hj. destruct (init_refs st) as (_ & Ht & _).
  rewrite !slot_trail by (rewrite ?Ht; lia). rewrite Ht. apply trail_init.
Qed.

Lemma wf_slot_is_Some st j :
  wf n_trails st -> 0 <= j < n_trails -> is_Some (slot st j).
Proof.
  intros Hwf Hj. pose proof Hwf as (_ & _ & HK).
  rewrite slot_trail by lia. apply (wf_trail_is_Some n_trails); [exact Hwf | lia].
Qed.

(** The style of a trail marker is the one [setup] gave it. *)
Lemma reachable_trail_style st p l :
  reachable x y alphas n_trails st -> trail st p = Some l ->
  exists a, alphas !! p = Some a /\ style l = (6, "w"%string, Some a, Some (-1000)).
Proof.
  intros Hreach Hl. apply reachable_marker_set in Hreach as (_ & Ht & Hs).
  unfold trail in Hl. rewrite Ht in Hl.
  destruct (seq 1 (length alphas) !! p) as [h|] eqn:Hh; [|discriminate].
  cbn in Hl. apply lookup_seq in Hh as [-> Hp].
  apply (f_equal (fun ls => ls !! (1 + p)%nat)) in Hs.
  rewrite !list_lookup_fmap, Hl, setup_eq in Hs.
  change (ax_lines (mkState ?ls _ _)) with ls in Hs.
  change (1 + p)%nat with (S p) in Hs. rewrite lookup_cons in Hs.
  rewrite list_lookup_fmap in Hs.
  destruct (alphas !! p) as [a|]; [|discriminate].
  exists a. split; [reflexivity|].
  cbn [fmap option_fmap option_map] in Hs.
  injection Hs as Hm Hc Hal Hz. unfold style.
  rewrite Hm, Hc, Hal, Hz. reflexivity.
Qed.

Lemma reachable_slot_alpha st j l :
  Z.of_nat (length alphas) = n_trails ->
  reachable x y alphas n_trails st -> 0 <= j < n_trails ->
  slot st j = Some l ->
  exists a, alphas !! Z.to_nat (n_trails - 1 - j) = Some a /\ alpha l = Some a.
Proof.
  intros Ha Hreach Hj Hl.
  pose proof (reachable_wf x y alphas n_trails st Ha Hreach) as (_ & _ & HK).
  rewrite slot_trail in Hl by lia.
  destruct (reachable_trail_style st _ l Hreach Hl) as (a & Hlook & Hst).
  exists a. split.
  - rewrite <- Hlook. f_equal. lia.
  - unfold style in Hst. congruence.
Qed.

(** From frame [n_trails] on every slot is drawn. *)
Lemma drawn_count_full i st :
  wf n_trails st -> n_trails <= i < Z.of_nat (length x) ->
  Z.of_nat (drawn_count (update_effect x y n_trails i st)) = n_trails.
Proof.
  intros Hwf Hi. pose proof Hwf as (_ & _ & HK). unfold drawn_count.
  destruct (update_effect_refs x y n_trails i st) as [_ Ht].
  rewrite (count_prefix _ _ (length (trails st)) 0).
  - rewrite Ht. lia.
  - intros p h Hp. rewrite (drawn_ref_trail _ p h Hp).
    rewrite Ht in Hp. apply lookup_lt_Some in Hp.
    rewrite trail_update_effect by exact Hwf.
    destruct (wf_trail_is_Some n_trails st p Hwf Hp) as [l ->].
    cbn [fmap option_fmap option_map].
    destruct (Z.ltb_spec (i - 1 - Z.of_nat p) 0);
      destruct (Nat.ltb_spec (0 + p) (length (trails st))); try lia.
    apply written_drawn. lia.
Qed.

End Slots.

(** ** A full trail *)

(** C3.  For [n_trails <= i < n_frames], [update(i)] returns, draws all
    [n_trails] trail slots, and the slot at position [j] of the
    oldest-to-newest order (the marker the loop pairs with [j], of opacity
    [alphas[n_trails - 1 - j]]) holds the sample [i - n_trails + j] of the
    trajectory. *)
Theorem C3_full_trail {T : Type} (x y alphas : list T)
    (n_trails n_frames : Z) (st : state T) (i : Z) :
  Z.of_nat (length x) = n_frames ->
  Z.of_nat (length y) = n_frames ->
  Z.of_nat (length alphas) = n_trails ->
  reachable x y alphas n_trails st ->
  n_trails <= i < n_frames ->
  exists st',
    update x y n_trails i st = Some (st', pt st :: trails st) /\
    Z.of_nat (drawn_count st') = n_trails /\
    forall j, 0 <= j < n_trails ->
      exists l xv yv a,
        slot st' j = Some l /\
        x !! Z.to_nat (i - n_trails + j) = Some xv /\
        y !! Z.to_nat (i - n_trails + j) = Some yv /\
        xdata l = [xv] /\ ydata l = [yv] /\
        alphas !! Z.to_nat (n_trails - 1 - j) = Some a /\ alpha l = Some a.
Proof.
  intros Hx Hy Ha Hreach Hi.
  pose proof (reach_wf x y alphas n_trails Ha st Hreach) as Hwf.
  assert (0 <= i < n_frames) as Hi' by lia.
  exists (update_effect x y n_trails i st). split; [|split].
  - apply (reachable_update_runs x y alphas n_trails n_frames); assumption.
  - apply drawn_count_full; [exact Hwf | lia].
  - intros j Hj.
    pose proof (reachable_update_effect x y alphas n_trails n_frames
                  Hx Hy Ha st i Hreach Hi') as Hreach'.
    destruct (wf_slot_is_Some n_trails st j Hwf Hj) as [l0 Hl0].
    destruct (lookup_in_range x (i - n_trails + j)) as [xv Hxv]; [lia|].
    destruct (lookup_in_range y (i - n_trails + j)) as [yv Hyv]; [lia|].
    assert (slot (update_effect x y n_trails i st) j
            = Some (written x y (i - n_trails + j) l0)) as Hslot.
    { rewrite slot_update_effect by assumption. rewrite Hl0.
      destruct (Z.ltb_spec (i - n_trails + j) 0); [lia | reflexivity]. }
    destruct (reachable_slot_alpha x y alphas n_trails _ j _ Ha Hreach' Hj Hslot)
      as (a & Hlook & Halpha).
    exists (written x y (i - n_trails + j) l0), xv, yv, a.
    destruct (written_data x y (i - n_trails + j) l0 xv yv Hxv Hyv) as [Hxd Hyd].
    repeat split; assumption.
Qed.

(** The notebook at frame [20], a full trail. *)
Lemma C3_witness :
  exists st',
    update Notebook.x Notebook.y Notebook.n_trails 20 (setup Notebook.alphas)
    = Some (st', pt (setup Notebook.alphas) :: trails (setup Notebook.alphas)) /\
    Z.of_nat (drawn_count st') = Notebook.n_trails /\
    forall j, 0 <= j < Notebook.n_trails ->
      exists l xv yv a,
        slot st' j = Some l /\
        Notebook.x !! Z.to_nat (20 - Notebook.n_trails + j) = Some xv /\
        Notebook.y !! Z.to_nat (20 - Notebook.n_trails + j) = Some yv /\
        xdata l = [xv] /\ ydata l = [yv] /\
        Notebook.alphas !! Z.to_nat (Notebook.n_trails - 1 - j) = Some a /\
        alpha l = Some a.
Proof.
  apply (C3_full_trail Notebook.x Notebook.y Notebook.alphas
           Notebook.n_trails Notebook.n_frames).
  - apply NotebookFacts.x_length.
  - apply NotebookFacts.y_length.
  - apply NotebookFacts.alphas_length.
  - apply reach_setup.
  - unfold Notebook.n_frames, Notebook.n_trails. lia.
Defined.

(** ** The first frame *)

(** C4.  With [n_trails > 0] and a non-empty trajectory, [update(0)] after
    [init] puts the head marker at sample [0] and leaves every trail slot
    undrawn: each source index [0 - n_trails + j] with [j < n_trails] is
    negative. *)
Theorem C4_first_frame {T : Type} (x y alphas : list T)
    (n_trails n_frames : Z) (st : state T) :
  Z.of_nat (length x) = n_frames ->
  Z.of_nat (length y) = n_frames ->
  Z.of_nat (length alphas) = n_trails ->
  reachable x y alphas n_trails st ->
  0 < n_trails -> 0 < n_frames ->
  exists st' hd xv yv,
    update x y n_trails 0 (init st).1 = Some (st', pt st :: trails st) /\
    x !! 0%nat = Some xv /\ y !! 0%nat = Some yv /\
    head st' = Some hd /\ xdata hd = [xv] /\ ydata hd = [yv] /\
    Z.of_nat (drawn_count st') = 0 /\
    forall j, 0 <= j < n_trails ->
      0 - n_trails + j < 0 /\
      exists l, slot st' j = Some l /\ xdata l = [] /\ ydata l = [] /\
                drawn l = false.
Proof.
  intros Hx Hy Ha Hreach HK HN.
  pose proof (reach_wf x y alphas n_trails Ha st Hreach) as Hwf.
  pose proof (init_wf n_trails st Hwf) as Hwf'.
  destruct (init_refs st) as (Hp & Ht & _).
  destruct (lookup_in_range x 0) as [xv Hxv]; [lia|].
  destruct (lookup_in_range y 0) as [yv Hyv]; [lia|].
  destruct (wf_head_is_Some n_trails st Hwf) as [hd0 Hhd0].
  exists (update_effect x y n_trails 0 (init st).1),
    (written x y 0 (set_data [] [] hd0)), xv, yv.
  split; [|split; [exact Hxv | split; [exact Hyv|]]].
  - rewrite <- Hp, <- Ht.
    apply (reachable_update_runs x y alphas n_trails n_frames); try assumption.
    + apply reach_init, Hreach.
    + lia.
  - split; [|split; [|split; [|split]]].
    + rewrite head_update_effect by exact Hwf'. rewrite head_init, Hhd0.
      reflexivity.
    + apply (written_data x y 0 _ xv yv Hxv Hyv).
    + apply (written_data x y 0 _ xv yv Hxv Hyv).
    + rewrite drawn_count_after_init by (try assumption; lia). lia.
    + intros j Hj. split; [lia|].
      destruct (wf_slot_is_Some n_trails st j Hwf Hj) as [l0 Hl0].
      exists (set_data [] [] l0).
      rewrite slot_update_effect by assumption.
      rewrite slot_init by (destruct Hwf as (_ & _ & HK'); lia).
      rewrite Hl0. cbn [fmap option_fmap option_map].
      destruct (Z.ltb_spec (0 - n_trails + j) 0); [|lia].
      repeat split.
Qed.

(** The first frame of the notebook. *)
Lemma C4_witness :
  exists st' hd xv yv,
    update Notebook.x Notebook.y Notebook.n_trails 0
      (init (setup Notebook.alphas)).1
    = Some (st', pt (setup Notebook.alphas) :: trails (setup Notebook.alphas)) /\
    Notebook.x !! 0%nat = Some xv /\ Notebook.y !! 0%nat = Some yv /\
    head st' = Some hd /\ xdata hd = [xv] /\ ydata hd = [yv] /\
    Z.of_nat (drawn_count st') = 0 /\
    forall j, 0 <= j < Notebook.n_trails ->
      0 - Notebook.n_trails + j < 0 /\
      exists l, slot st' j = Some l /\ xdata l = [] /\ ydata l = [] /\
                drawn l = false.
Proof.
  apply (C4_first_frame Notebook.x Notebook.y Notebook.alphas
           Notebook.n_trails Notebook.n_frames).
  - apply NotebookFacts.x_length.
  - apply NotebookFacts.y_length.
  - apply NotebookFacts.alphas_length.
  - apply reach_setup.
  - unfold Notebook.n_trails. lia.
  - unfold Notebook.n_frames. lia.
Defined.

(** ** Negative source indices *)

(** C5.  For [0 <= i < n_frames], [update(i)] raises no error and reads
    the trajectory at no negative index: it returns the same marker set when
    the indexing operator refuses negative indices.  A trail slot whose
    source index [i - n_trails + j] is negative is skipped: it is left as it
    was, neither filled from the end of the trajectory nor from sample
    [0]. *)
Theorem C5_negative_indices_skipped {T : Type} (x y alphas : list T)
    (n_trails n_frames : Z) (st : state T) (i : Z) :
  Z.of_nat (length x) = n_frames ->
  Z.of_nat (length y) = n_frames ->
  Z.of_nat (length alphas) = n_trails ->
  reachable x y alphas n_trails st ->
  0 <= i < n_frames ->
  exists st',
    update x y n_trails i st = Some (st', pt st :: trails st) /\
    update_nonneg x y n_trails i st = Some (st', pt st :: trails st) /\
    forall j, 0 <= j < n_trails -> i - n_trails + j < 0 ->
      slot st' j = slot st j.
Proof.
  intros Hx Hy Ha Hreach Hi.
  pose proof (reach_wf x y alphas n_trails Ha st Hreach) as Hwf.
  exists (update_effect x y n_trails i st). split; [|split].
  - apply (reachable_update_runs x y alphas n_trails n_frames); assumption.
  - apply (reachable_update_nonneg_runs x y alphas n_trails n_frames); assumption.
  - intros j Hj Hneg. rewrite slot_update_effect by assumption.
    destruct (Z.ltb_spec (i - n_trails + j) 0); [|lia].
    destruct (slot st j); reflexivity.
Qed.

(** The notebook at frame [3], where five source indices are negative. *)
Lemma C5_witness :
  exists st',
    update Notebook.x Notebook.y Notebook.n_trails 3 (setup Notebook.alphas)
    = Some (st', pt (setup Notebook.alphas) :: trails (setup Notebook.alphas)) /\
    update_nonneg Notebook.x Notebook.y Notebook.n_trails 3
      (setup Notebook.alphas)
    = Some (st', pt (setup Notebook.alphas) :: trails (setup Notebook.alphas)) /\
    forall j, 0 <= j < Notebook.n_trails -> 3 - Notebook.n_trails + j < 0 ->
      slot st' j = slot (setup Notebook.alphas) j.
Proof.
  apply (C5_negative_indices_skipped Notebook.x Notebook.y Notebook.alphas
           Notebook.n_trails Notebook.n_frames).
  - apply NotebookFacts.x_length.
  - apply NotebookFacts.y_length.
  - apply NotebookFacts.alphas_length.
  - apply reach_setup.
  - unfold Notebook.n_frames. lia.
Defined.

(** C9.  For [0 <= i < n_frames], [update(i)] leaves every trail slot
    with a negative source index [i - n_trails + j] exactly as it was before
    the call (skipped, not cleared); an artist that differs after the call
    is the head marker or a trail slot with a non-negative source index. *)
Theorem C9_skipped_slots_keep_data {T : Type} (x y alphas : list T)
    (n_trails n_frames : Z) (st : state T) (i : Z) :
  Z.of_nat (length x) = n_frames ->
  Z.of_nat (length y) = n_frames ->
  Z.of_nat (length alphas) = n_trails ->
  reachable x y alphas n_trails st ->
  0 <= i < n_frames ->
  exists st',
    update x y n_trails i st = Some (st', pt st :: trails st) /\
    (forall j, 0 <= j < n_trails -> i - n_trails + j < 0 ->
       slot st' j = slot st j) /\
    (forall h, ax_lines st' !! h <> ax_lines st !! h ->
       h = pt st \/
       exists j, 0 <= j < n_trails /\ 0 <= i - n_trails + j /\
                 trails st !! Z.to_nat (n_trails - 1 - j) = Some h).
Proof.
  intros Hx Hy Ha Hreach Hi.
  pose proof (reach_wf x y alphas n_trails Ha st Hreach) as Hwf.
  exists (update_effect x y n_trails i st). split; [|split].
  - apply (reachable_update_runs x y alphas n_trails n_frames); assumption.
  - intros j Hj Hneg. rewrite slot_update_effect by assumption.
    destruct (Z.ltb_spec (i - n_trails + j) 0); [|lia].
    destruct (slot st j); reflexivity.
  - intros h Hdiff. destruct Hwf as (Hnd & _ & HK).
    destruct (decide (h = pt st)) as [->|Hne]; [left; reflexivity|].
    destruct (decide (h ∈ trails st)) as [Hin|Hnin].
    + right. apply list_elem_of_lookup in Hin as [p Hp].
      pose proof (lookup_lt_Some _ _ _ Hp) as Hlt.
      rewrite (update_effect_trail x y n_trails i st p h Hnd Hp) in Hdiff.
      cbn zeta in Hdiff.
      destruct (Z.ltb_spec (i - n_trails + Z.of_nat (length (trails st) - 1 - p)) 0)
        as [Hneg|Hpos].
      * exfalso. apply Hdiff. destruct (ax_lines st !! h); reflexivity.
      * exists (Z.of_nat (length (trails st) - 1 - p)).
        split; [lia|]. split; [exact Hpos|].
        rewrite <- Hp. f_equal. lia.
    + exfalso. apply Hdiff. apply update_effect_other.
      intros Hin. apply elem_of_cons in Hin as [?|?]; contradiction.
Qed.

(** Frame [3] of the notebook called on the full trail of frame [20]:
    the five oldest slots keep the samples of frame [20]. *)
Lemma C9_witness :
  let st := update_effect Notebook.x Notebook.y Notebook.n_trails 20
              (setup Notebook.alphas) in
  exists st',
    update Notebook.x Notebook.y Notebook.n_trails 3 st
    = Some (st', pt st :: trails st) /\
    (forall j, 0 <= j < Notebook.n_trails -> 3 - Notebook.n_trails + j < 0 ->
       slot st' j = slot st j) /\
    (forall h,
       ax_lines st' !! h <> ax_lines st !! h ->
       h = pt st \/
       exists j, 0 <= j < Notebook.n_trails /\
                 0 <= 3 - Notebook.n_trails + j /\
                 trails st !! Z.to_nat (Notebook.n_trails - 1 - j) = Some h).
Proof.
  apply (C9_skipped_slots_keep_data Notebook.x Notebook.y Notebook.alphas
           Notebook.n_trails Notebook.n_frames).
  - apply NotebookFacts.x_length.
  - apply NotebookFacts.y_length.
  - apply NotebookFacts.alphas_length.
  - apply (reachable_update_effect Notebook.x Notebook.y Notebook.alphas
             Notebook.n_trails Notebook.n_frames).
    + apply NotebookFacts.x_length.
    + apply NotebookFacts.y_length.
    + apply NotebookFacts.alphas_length.
    + apply reach_setup.
    + unfold Notebook.n_frames. lia.
  - unfold Notebook.n_frames. lia.
Defined.

(** ** Calling [update] again, and from another state *)

Section Purity.

Context {T : Type}.
Variables (x y alphas : list T) (n_trails n_frames : Z).

Hypothesis x_frames : Z.of_nat (length x) = n_frames.
Hypothesis y_frames : Z.of_nat (length y) = n_frames.
Hypothesis alphas_trails : Z.of_nat (length alphas) = n_trails.

Implicit Types (st : state T) (i : Z).

Lemma fmap_set_data_agree (o o' : option (Line2D T)) (xs ys : list T) :
  style <$> o = style <$> o' -> set_data xs ys <$> o = set_data xs ys <$> o'.
Proof.
  destruct o as [l|], o' as [l'|]; cbn; try discriminate; [|reflexivity].
  unfold style, set_data. intros [= -> -> -> ->]. reflexivity.
Qed.

Lemma reachable_styles_agree st st' h :
  reachable x y alphas n_trails st -> reachable x y alphas n_trails st' ->
  style <$> ax_lines st !! h = style <$> ax_lines st' !! h.
Proof.
  intros Hr Hr'. apply reachable_marker_set in Hr as (_ & _ & Hs).
  apply reachable_marker_set in Hr' as (_ & _ & Hs').
  rewrite <- !list_lookup_fmap, Hs, Hs'. reflexivity.
Qed.

Lemma reachable_refs_agree st st' :
  reachable x y alphas n_trails st -> reachable x y alphas n_trails st' ->
  pt st = pt st' /\ trails st = trails st'.
Proof.
  intros Hr Hr'. apply reachable_marker_set in Hr as (-> & -> & _).
  apply reachable_marker_set in Hr' as (-> & -> & _). auto.
Qed.

Lemma reachable_lookup_None st h :
  reachable x y alphas n_trails st -> h ∉ pt st :: trails st ->
  ax_lines st !! h = None.
Proof.
  intros Hr Hnot. pose proof (reachable_length x y alphas n_trails st Hr) as Hlen.
  apply reachable_marker_set in Hr as (Hp & Ht & _).
  rewrite Hp, Ht in Hnot.
  change (0%nat :: seq 1 (length alphas)) with (seq 0 (S (length alphas))) in Hnot.
  apply lookup_ge_None_2. rewrite Hlen.
  destruct (Nat.le_gt_cases (S (length alphas)) h) as [Hle|Hgt]; [exact Hle|].
  exfalso. apply Hnot. apply elem_of_seq. lia.
Qed.

(** [init] forgets what the markers held. *)
Lemma init_resets st st' :
  reachable x y alphas n_trails st -> reachable x y alphas n_trails st' ->
  (init st).1 = (init st').1.
Proof.
  intros Hr Hr'. destruct (reachable_refs_agree st st' Hr Hr') as [Hp Ht].
  destruct (init_refs st) as (Hip & Hit & _).
  destruct (init_refs st') as (Hip' & Hit' & _).
  apply state_ext; [congruence | congruence |].
  intros h. rewrite !init_lookup. rewrite <- Hp, <- Ht.
  destruct (decide (h ∈ pt st :: trails st)) as [Hin|Hnin].
  - apply fmap_set_data_agree, reachable_styles_agree; assumption.
  - rewrite !reachable_lookup_None; try assumption; [reflexivity|].
    rewrite <- Hp, <- Ht. exact Hnin.
Qed.

(** From frame [n_trails] on, [update] overwrites every marker. *)
Lemma update_effect_full st st' i :
  reachable x y alphas n_trails st -> reachable x y alphas n_trails st' ->
  n_trails <= i ->
  update_effect x y n_trails i st = update_effect x y n_trails i st'.
Proof.
  intros Hr Hr' Hi. destruct (reachable_refs_agree st st' Hr Hr') as [Hp Ht].
  pose proof (reach_wf x y alphas n_trails alphas_trails st Hr) as (Hnd & _ & HK).
  pose proof (reach_wf x y alphas n_trails alphas_trails st' Hr') as (Hnd' & _ & HK').
  destruct (update_effect_refs x y n_trails i st) as (Hup & Hut).
  destruct (update_effect_refs x y n_trails i st') as (Hup' & Hut').
  apply state_ext; [congruence | congruence |].
  intros h. destruct (decide (h = pt st)) as [->|Hne].
  - rewrite update_effect_head by exact Hnd. rewrite Hp.
    rewrite update_effect_head by exact Hnd'. rewrite <- Hp.
    apply fmap_set_data_agree, reachable_styles_agree; assumption.
  - destruct (decide (h ∈ trails st)) as [Hin|Hnin].
    + apply list_elem_of_lookup in Hin as [p Hin].
      pose proof (lookup_lt_Some _ _ _ Hin) as Hlt.
      rewrite (update_effect_trail x y n_trails i st p h Hnd Hin).
      rewrite Ht in Hin.
      rewrite (update_effect_trail x y n_trails i st' p h Hnd' Hin).
      cbn zeta. rewrite <- Ht.
      destruct (Z.ltb_spec (i - n_trails + Z.of_nat (length (trails st) - 1 - p)) 0);
        [lia|].
      apply fmap_set_data_agree, reachable_styles_agree; assumption.
    + rewrite !update_effect_other.
      * rewrite !reachable_lookup_None; try assumption; [reflexivity| |].
        -- rewrite <- Hp, <- Ht.
           intros Hin. apply elem_of_cons in Hin as [?|?]; contradiction.
        -- intros Hin. apply elem_of_cons in Hin as [?|?]; contradiction.
      * rewrite <- Hp, <- Ht.
        intros Hin. apply elem_of_cons in Hin as [?|?]; contradiction.
      * intros Hin. apply elem_of_cons in Hin as [?|?]; contradiction.
Qed.

Lemma update_effect_idem st i :
  reachable x y alphas n_trails st ->
  update_effect x y n_trails i (update_effect x y n_trails i st)
  = update_effect x y n_trails i st.
Proof.
  intros Hr. apply (update_effect_absorb x y n_trails);
    [apply (reach_wf x y alphas n_trails alphas_trails), Hr | lia].
Qed.

Lemma positions_trail st p :
  (p < length (trails st))%nat ->
  positions st !! S p = Some (data (trail st p)).
Proof.
  intros Hp. unfold positions. rewrite lookup_cons.
  rewrite list_lookup_fmap, lookup_seq_lt by exact Hp. reflexivity.
Qed.

End Purity.

(** C6 (as amended).  For [0 <= i < n_frames], a second call [update(i)]
    right after the first returns the same markers and leaves the head and
    every trail marker exactly as the first call left them.  The marker set
    after [update(i)] is the same from any two states when
    [i >= n_trails], and when the call is reached through [init] and
    [update(0)], ..., [update(i)] in order. *)
Theorem C6_update_idempotent {T : Type} (x y alphas : list T)
    (n_trails n_frames : Z) (st st2 : state T) (i : Z) :
  Z.of_nat (length x) = n_frames ->
  Z.of_nat (length y) = n_frames ->
  Z.of_nat (length alphas) = n_trails ->
  reachable x y alphas n_trails st ->
  reachable x y alphas n_trails st2 ->
  0 <= i < n_frames ->
  exists st',
    update x y n_trails i st = Some (st', pt st :: trails st) /\
    update x y n_trails i st' = Some (st', pt st :: trails st) /\
    (n_trails <= i ->
     update x y n_trails i st2 = Some (st', pt st :: trails st)) /\
    exists s,
      updates_to x y n_trails i (init st).1 = Some s /\
      updates_to x y n_trails i (init st2).1 = Some s.
Proof.
  intros Hx Hy Ha Hr Hr2 Hi.
  pose proof (reachable_update_effect x y alphas n_trails n_frames
                Hx Hy Ha st i Hr Hi) as Hr'.
  destruct (update_effect_refs x y n_trails i st) as [Hp Ht].
  exists (update_effect x y n_trails i st). split; [|split; [|split]].
  - apply (reachable_update_runs x y alphas n_trails n_frames); assumption.
  - rewrite (reachable_update_runs x y alphas n_trails n_frames) by assumption.
    rewrite Hp, Ht. rewrite (update_effect_idem x y alphas n_trails Ha st i Hr).
    reflexivity.
  - intros HK.
    rewrite (reachable_update_runs x y alphas n_trails n_frames) by assumption.
    destruct (reachable_refs_agree x y alphas n_trails st st2 Hr Hr2) as [-> ->].
    rewrite (update_effect_full x y alphas n_trails Ha st st2 i Hr Hr2 HK).
    reflexivity.
  - exists (update_effect x y n_trails i (init st).1). split.
    + apply (reachable_updates_to x y alphas n_trails n_frames); try assumption.
      apply reach_init, Hr.
    + rewrite (init_resets x y alphas n_trails st st2 Hr Hr2).
      apply (reachable_updates_to x y alphas n_trails n_frames); try assumption.
      apply reach_init, Hr2.
Qed.

(** In the notebook, [update(0)] right after [init] leaves the newest trail
    marker empty, and [update(0)] after [init] and [update(5)] leaves it
    holding sample [4]: the positions after [update(0)] are not a function
    of the index alone. *)
Lemma C6_counterexample :
  exists st2 s1 s2 r,
    update Notebook.x Notebook.y Notebook.n_trails 5
      (init (setup Notebook.alphas)).1 = Some (st2, r) /\
    update Notebook.x Notebook.y Notebook.n_trails 0
      (init (setup Notebook.alphas)).1 = Some (s1, r) /\
    update Notebook.x Notebook.y Notebook.n_trails 0 st2 = Some (s2, r) /\
    positions s1 <> positions s2.
Proof.
  pose proof NotebookFacts.x_length as Hx.
  pose proof NotebookFacts.y_length as Hy.
  pose proof NotebookFacts.alphas_length as Ha.
  set (X := Notebook.x) in *. set (Y := Notebook.y) in *.
  set (A := Notebook.alphas) in *.
  set (st1 := (init (setup A)).1).
  assert (reachable X Y A Notebook.n_trails (setup A)) as Hr0 by apply reach_setup.
  assert (reachable X Y A Notebook.n_trails st1) as Hr1 by apply reach_init, Hr0.
  assert (0 <= 5 < Notebook.n_frames) as H5 by (unfold Notebook.n_frames; lia).
  assert (0 <= 0 < Notebook.n_frames) as H0 by (unfold Notebook.n_frames; lia).
  pose proof (reachable_update_effect X Y A _ _ Hx Hy Ha st1 5 Hr1 H5) as Hr2.
  pose proof (reach_wf X Y A _ Ha _ Hr0) as Hwf0.
  pose proof (reach_wf X Y A _ Ha _ Hr2) as Hwf2.
  destruct (update_effect_refs X Y Notebook.n_trails 5 st1) as [Hp Ht].
  exists (update_effect X Y Notebook.n_trails 5 st1),
    (update_effect X Y Notebook.n_trails 0 st1),
    (update_effect X Y Notebook.n_trails 0
       (update_effect X Y Notebook.n_trails 5 st1)),
    (pt st1 :: trails st1).
  split; [|split; [|split]].
  - apply (reachable_update_runs X Y A _ Notebook.n_frames); assumption.
  - apply (reachable_update_runs X Y A _ Notebook.n_frames); assumption.
  - rewrite <- Hp, <- Ht.
    apply (reachable_update_runs X Y A _ Notebook.n_frames); assumption.
  - intros Heq. apply (f_equal (fun ps => ps !! 1%nat)) in Heq.
    destruct (reach_trail X Y A _ Ha (setup A) 0 Hr0) as [l0 Hl0];
      [unfold Notebook.n_trails; lia|].
    destruct (lookup_in_range X 4) as [xv Hxv];
      [rewrite Hx; unfold Notebook.n_frames; lia|].
    rewrite !positions_trail in Heq.
    + rewrite (trail_update_effect X Y _ 0
                 (update_effect X Y Notebook.n_trails 5 st1) 0 Hwf2) in Heq.
      unfold st1 in Heq.
      rewrite !trail_after_init in Heq by exact Hwf0.
      rewrite Hl0 in Heq. cbn [fmap option_fmap option_map] in Heq.
      change (0 - 1 - Z.of_nat 0 <? 0) with true in Heq.
      change (5 - 1 - Z.of_nat 0 <? 0) with false in Heq.
      change (5 - 1 - Z.of_nat 0) with 4 in Heq.
      unfold data, written in Heq. cbn [xdata ydata set_data] in Heq.
      rewrite (sample_in_range X 4 xv Hxv) in Heq. discriminate.
    + destruct (update_effect_refs X Y Notebook.n_trails 0
                  (update_effect X Y Notebook.n_trails 5 st1)) as [_ ->].
      destruct Hwf2 as (_ & _ & HK).
      apply Nat2Z.inj_lt. rewrite HK. unfold Notebook.n_trails. lia.
    + destruct (update_effect_refs X Y Notebook.n_trails 0 st1) as [_ ->].
      rewrite <- Ht. destruct Hwf2 as (_ & _ & HK).
      apply Nat2Z.inj_lt. rewrite HK. unfold Notebook.n_trails. lia.
Qed.

(** The notebook at frame [3], from [setup] and from [init]. *)
Lemma C6_witness :
  exists st',
    update Notebook.x Notebook.y Notebook.n_trails 3 (setup Notebook.alphas)
    = Some (st', pt (setup Notebook.alphas) :: trails (setup Notebook.alphas)) /\
    update Notebook.x Notebook.y Notebook.n_trails 3 st'
    = Some (st', pt (setup Notebook.alphas) :: trails (setup Notebook.alphas)) /\
    (Notebook.n_trails <= 3 ->
     update Notebook.x Notebook.y Notebook.n_trails 3
       (init (setup Notebook.alphas)).1
     = Some (st', pt (setup Notebook.alphas) :: trails (setup Notebook.alphas))) /\
    exists s,
      updates_to Notebook.x Notebook.y Notebook.n_trails 3
        (init (setup Notebook.alphas)).1 = Some s /\
      updates_to Notebook.x Notebook.y Notebook.n_trails 3
        (init (init (setup Notebook.alphas)).1).1 = Some s.
Proof.
  apply (C6_update_idempotent Notebook.x Notebook.y Notebook.alphas
           Notebook.n_trails Notebook.n_frames).
  - apply NotebookFacts.x_length.
  - apply NotebookFacts.y_length.
  - apply NotebookFacts.alphas_length.
  - apply reach_setup.
  - apply reach_init, reach_setup.
  - unfold Notebook.n_frames. lia.
Defined.

(** ** The animation as a whole *)

Section Playing.

Context {T : Type}.
Variables (x y : list T) (n_trails : Z).
Hypothesis same_length : length y = length x.

Implicit Types (st : state T).

Lemma play_app (l1 l2 : list Z) st :
  play x y n_trails (l1 ++ l2) st
  = ('(s1, f1) ← play x y n_trails l1 st;
     '(s2, f2) ← play x y n_trails l2 s1;
     Some (s2, f1 ++ f2)).
Proof.
  revert st. induction l1 as [|k l1 IH]; intros st.
  - cbn. destruct (play x y n_trails l2 st) as [[s2 f2]|]; reflexivity.
  - cbn [app play]. destruct (update x y n_trails k st) as [[s1 r]|];
      [|reflexivity].
    cbn. rewrite IH. destruct (play x y n_trails l1 s1) as [[s2 f1]|];
      [|reflexivity].
    cbn. destruct (play x y n_trails l2 s2) as [[s3 f2]|]; reflexivity.
Qed.

(** Playing frames [0..m] yields one frame per index, the frame of index
    [k] showing the marker set as [update(k)] leaves it. *)
Lemma play_range (m : nat) st :
  wf n_trails st -> (m < length x)%nat ->
  play x y n_trails (py_range (S m)) st
  = Some (update_effect x y n_trails (Z.of_nat m) st,
          (fun k => ax_lines (update_effect x y n_trails k st))
            <$> py_range (S m)).
Proof.
  intros Hwf. induction m as [|m IH]; intros Hm.
  - cbn. rewrite update_runs by (try assumption; lia). reflexivity.
  - rewrite (py_range_S (S m)), fmap_app, play_app, IH by lia.
    cbn -[py_range update_effect].
    rewrite update_runs by (try apply update_effect_wf; try assumption; lia).
    cbn -[py_range update_effect].
    rewrite update_effect_absorb by (try assumption; lia). reflexivity.
Qed.

End Playing.

(** The notebook's animation: 128 frames, the last one after
    [update(127)]. *)
Lemma notebook_run :
  Notebook.run
  = Some (update_effect Notebook.x Notebook.y Notebook.n_trails 127
            (init (setup Notebook.alphas)).1,
          (fun k => ax_lines
                      (update_effect Notebook.x Notebook.y Notebook.n_trails k
                         (init (setup Notebook.alphas)).1))
            <$> py_range 128).
Proof.
  rewrite NotebookFacts.run_eq. unfold FuncAnimation.
  change (Z.to_nat Notebook.n_frames) with 128%nat.
  apply (play_range Notebook.x Notebook.y Notebook.n_trails).
  - pose proof NotebookFacts.x_length. pose proof NotebookFacts.y_length. lia.
  - apply init_wf.
    apply (reach_wf Notebook.x Notebook.y Notebook.alphas);
      [apply NotebookFacts.alphas_length | apply reach_setup].
  - pose proof NotebookFacts.x_length as Hx. unfold Notebook.n_frames in Hx. lia.
Qed.

(** Drawing the animation again for the export gives the same frames:
    [init] resets what the first drawing left. *)
Lemma notebook_save : Notebook.save = Notebook.run.
Proof.
  unfold Notebook.save. rewrite notebook_run at 1.
  cbn [mbind option_bind]. unfold FuncAnimation.
  rewrite NotebookFacts.run_eq. unfold FuncAnimation. f_equal.
  apply (init_resets Notebook.x Notebook.y Notebook.alphas Notebook.n_trails).
  - apply (reachable_update_effect Notebook.x Notebook.y Notebook.alphas
             Notebook.n_trails Notebook.n_frames).
    + apply NotebookFacts.x_length.
    + apply NotebookFacts.y_length.
    + apply NotebookFacts.alphas_length.
    + apply reach_init, reach_setup.
    + unfold Notebook.n_frames. lia.
  - apply reach_setup.
Qed.

(** Two samples of the circle less than half a turn apart differ. *)
Lemma circle_points_differ (a b : R) :
  (0 < b - a < 3)%R -> sin a = sin b -> cos a = cos b -> False.
Proof.
  intros [Hlo Hhi] Hs Hc.
  assert (cos (b - a) = 1)%R as Hcos.
  { rewrite cos_minus, <- Hs, <- Hc.
    pose proof (sin2_cos2 a) as H1. unfold Rsqr in H1. lra. }
  assert (0 < sin (b - a))%R as Hsin.
  { apply sin_gt_0; [exact Hlo|]. pose proof PI2_3_2. lra. }
  pose proof (sin2_cos2 (b - a)) as H2. unfold Rsqr in H2.
  rewrite Hcos in H2. nra.
Qed.

Lemma notebook_x_lookup (k : nat) :
  (k < 128)%nat ->
  Notebook.x !! k = Some (sin (IZR (Z.of_nat k) * (10 / 127))).
Proof.
  intros Hk. rewrite NotebookFacts.x_eq, list_lookup_fmap.
  rewrite NotebookFacts.t_lookup by exact Hk. reflexivity.
Qed.

Lemma notebook_y_lookup (k : nat) :
  (k < 128)%nat ->
  Notebook.y !! k = Some (cos (IZR (Z.of_nat k) * (10 / 127))).
Proof.
  intros Hk. rewrite NotebookFacts.y_eq, list_lookup_fmap.
  rewrite NotebookFacts.t_lookup by exact Hk. reflexivity.
Qed.

(** ** The notebook's run: 128 frames, 8 trails *)

(** C2 (as amended).  With [n_frames = 128] and [n_trails = 8] the
    animation, as first drawn and as exported, has exactly 128 frames; the
    last one shows the marker set
    after [update(127)], where the head is at sample [127] and all 8 trail
    slots are drawn, slot [j] (oldest first) holding sample [119 + j]: the
    trail is sourced from [trajectory[119..126]]. *)
Theorem C2_last_frame :
  exists st frames,
    Notebook.run = Some (st, frames) /\
    Notebook.save = Some (st, frames) /\
    length frames = 128%nat /\
    frames !! 127%nat = Some (ax_lines st) /\
    Z.of_nat (drawn_count st) = 8 /\
    (exists hd xv yv,
       head st = Some hd /\
       Notebook.x !! 127%nat = Some xv /\ Notebook.y !! 127%nat = Some yv /\
       xdata hd = [xv] /\ ydata hd = [yv]) /\
    forall j, 0 <= j < 8 ->
      exists l xv yv,
        slot st j = Some l /\
        Notebook.x !! Z.to_nat (119 + j) = Some xv /\
        Notebook.y !! Z.to_nat (119 + j) = Some yv /\
        xdata l = [xv] /\ ydata l = [yv].
Proof.
  pose proof NotebookFacts.x_length as Hx.
  pose proof NotebookFacts.y_length as Hy.
  pose proof NotebookFacts.alphas_length as Ha.
  unfold Notebook.n_frames in Hx, Hy. unfold Notebook.n_trails in Ha.
  assert (wf 8 (init (setup Notebook.alphas)).1) as Hwf.
  { apply init_wf.
    apply (reach_wf Notebook.x Notebook.y Notebook.alphas 8 Ha), reach_setup. }
  eexists _, _. split; [apply notebook_run|].
  split; [rewrite notebook_save; apply notebook_run|].
  unfold Notebook.n_trails.
  split; [|split; [|split; [|split]]].
  - rewrite length_fmap. apply py_range_length.
  - rewrite list_lookup_fmap, py_range_lookup by lia. reflexivity.
  - apply drawn_count_full; [exact Hwf | lia].
  - destruct (wf_head_is_Some 8 _ Hwf) as [hd0 Hhd0].
    destruct (lookup_in_range Notebook.x 127) as [xv Hxv]; [lia|].
    destruct (lookup_in_range Notebook.y 127) as [yv Hyv]; [lia|].
    exists (written Notebook.x Notebook.y 127 hd0), xv, yv.
    split; [|split; [exact Hxv | split; [exact Hyv|]]].
    + rewrite head_update_effect by exact Hwf. rewrite Hhd0. reflexivity.
    + apply written_data; assumption.
  - intros j Hj.
    destruct (wf_slot_is_Some 8 _ j Hwf Hj) as [l0 Hl0].
    destruct (lookup_in_range Notebook.x (119 + j)) as [xv Hxv]; [lia|].
    destruct (lookup_in_range Notebook.y (119 + j)) as [yv Hyv]; [lia|].
    exists (written Notebook.x Notebook.y (119 + j) l0), xv, yv.
    split; [|split; [exact Hxv | split; [exact Hyv|]]].
    + rewrite slot_update_effect by assumption. rewrite Hl0.
      replace (127 - 8 + j) with (119 + j) by lia.
      destruct (Z.ltb_spec (119 + j) 0); [lia | reflexivity].
    + apply written_data; assumption.
Qed.

(** After [update(127)] the oldest trail slot holds sample [119], which is
    another point of the circle than sample [120]: the trail is not sourced
    from [trajectory[120..127]]. *)
Lemma C2_counterexample :
  ~ (forall st frames,
       Notebook.run = Some (st, frames) ->
       forall j, 0 <= j < 8 ->
         exists l xv yv,
           slot st j = Some l /\
           Notebook.x !! Z.to_nat (120 + j) = Some xv /\
           Notebook.y !! Z.to_nat (120 + j) = Some yv /\
           xdata l = [xv] /\ ydata l = [yv]).
Proof.
  intros Hclaim.
  destruct (Hclaim _ _ notebook_run 0) as (l & xv & yv & Hl & Hxv & Hyv & Hxd & Hyd);
    [lia|].
  pose proof NotebookFacts.alphas_length as Ha. unfold Notebook.n_trails in Ha.
  assert (wf 8 (init (setup Notebook.alphas)).1) as Hwf.
  { apply init_wf.
    apply (reach_wf Notebook.x Notebook.y Notebook.alphas 8 Ha), reach_setup. }
  unfold Notebook.n_trails in Hl.
  rewrite slot_update_effect in Hl by (try assumption; lia).
  destruct (wf_slot_is_Some 8 _ 0 Hwf) as [l0 Hl0]; [lia|].
  rewrite Hl0 in Hl. change (127 - 8 + 0 <? 0) with false in Hl.
  change (127 - 8 + 0) with 119 in Hl.
  cbn [fmap option_fmap option_map] in Hl. injection Hl as <-.
  change (Z.to_nat (120 + 0)) with 120%nat in Hxv, Hyv.
  rewrite notebook_x_lookup in Hxv by lia.
  rewrite notebook_y_lookup in Hyv by lia.
  injection Hxv as <-. injection Hyv as <-.
  destruct (written_data Notebook.x Notebook.y 119 l0 _ _
              (notebook_x_lookup 119 ltac:(lia))
              (notebook_y_lookup 119 ltac:(lia))) as [Hxd' Hyd'].
  rewrite Hxd' in Hxd. rewrite Hyd' in Hyd.
  injection Hxd as Hs. injection Hyd as Hc.
  refine (circle_points_differ _ _ _ Hs Hc).
  change (Z.of_nat 120) with 120. change (Z.of_nat 119) with 119. lra.
Qed.

(** ** Evenly spaced samples *)

Section LinspaceValues.

Variables (start stop : R) (num : Z).

Lemma linspace_value_first : linspace_value start stop num 0 = start.
Proof. unfold linspace_value. destruct (num <=? 1); [reflexivity | lra]. Qed.

Lemma linspace_value_last :
  1 < num -> linspace_value start stop num (num - 1) = stop.
Proof.
  intros Hn. unfold linspace_value. destruct (Z.leb_spec num 1); [lia|].
  field. apply not_0_IZR. lia.
Qed.

Lemma linspace_step_pos :
  1 < num -> (start < stop)%R -> (0 < (stop - start) / IZR (num - 1))%R.
Proof.
  intros Hn Hlt. apply Rdiv_lt_0_compat; [lra|]. apply IZR_lt. lia.
Qed.

Lemma linspace_value_lt (j k : Z) :
  (start < stop)%R -> 0 <= j < k -> k < num ->
  (linspace_value start stop num j < linspace_value start stop num k)%R.
Proof.
  intros Hlt Hjk Hk. unfold linspace_value.
  destruct (Z.leb_spec num 1); [lia|].
  pose proof (linspace_step_pos ltac:(lia) Hlt) as Hstep.
  assert (IZR j < IZR k)%R as Hcmp by (apply IZR_lt; lia).
  apply Rplus_lt_compat_l, Rmult_lt_compat_r; assumption.
Qed.

Lemma linspace_value_range (k : Z) :
  (start <= stop)%R -> 0 <= k < num ->
  (start <= linspace_value start stop num k <= stop)%R.
Proof.
  intros Hle Hk. unfold linspace_value.
  destruct (Z.leb_spec num 1); [lra|].
  assert (0 < IZR (num - 1))%R as Hd by (apply IZR_lt; lia).
  assert (0 <= IZR k <= IZR (num - 1))%R as Hk'.
  { split; apply IZR_le; lia. }
  assert (0 <= (stop - start) / IZR (num - 1))%R as Hstep.
  { apply Rle_mult_inv_pos; [lra | exact Hd]. }
  split.
  - assert (0 <= IZR k * ((stop - start) / IZR (num - 1)))%R
      by (apply Rmult_le_pos; lra). lra.
  - assert (IZR k * ((stop - start) / IZR (num - 1))
            <= IZR (num - 1) * ((stop - start) / IZR (num - 1)))%R as Hmul
      by (apply Rmult_le_compat_r; lra).
    replace (IZR (num - 1) * ((stop - start) / IZR (num - 1)))%R
      with (stop - start)%R in Hmul by (field; lra).
    lra.
Qed.

End LinspaceValues.

(** Samples running downwards, as the opacities do. *)
Lemma linspace_value_gt (start stop : R) (num j k : Z) :
  (stop < start)%R -> 0 <= j < k -> k < num ->
  (linspace_value start stop num k < linspace_value start stop num j)%R.
Proof.
  intros Hlt Hjk Hk. unfold linspace_value.
  destruct (Z.leb_spec num 1); [lia|].
  assert (0 < IZR (num - 1))%R as Hd by (apply IZR_lt; lia).
  assert (IZR j < IZR k)%R as Hcmp by (apply IZR_lt; lia).
  assert ((stop - start) / IZR (num - 1) < 0)%R as Hstep.
  { unfold Rdiv. apply Rmult_neg_pos; [lra|]. apply Rinv_0_lt_compat, Hd. }
  apply Rplus_lt_compat_l.
  rewrite (Rmult_comm (IZR k)), (Rmult_comm (IZR j)).
  apply Rmult_lt_gt_compat_neg_l; assumption.
Qed.

(** ** The trajectory generator *)

(** C7.  For a frame count [N > 0] the generator raises no error and
    returns [N] samples: [t], [x] and [y] all have length [N], [x[k]] is
    the sine and [y[k]] the cosine of [t[k]], and the parameter [t] increases
    strictly with the index, from [0] to [10] (reached when [N > 1]). *)
Theorem C7_trajectory (N : Z) :
  0 < N ->
  exists t x y,
    Notebook.trajectory N = Some (t, x, y) /\
    Z.of_nat (length t) = N /\
    Z.of_nat (length x) = N /\
    Z.of_nat (length y) = N /\
    (forall k : nat, Z.of_nat k < N ->
       exists tk, t !! k = Some tk /\
                  x !! k = Some (sin tk) /\ y !! k = Some (cos tk) /\
                  (0 <= tk <= 10)%R) /\
    (forall (j k : nat) (tj tk : R),
       (j < k)%nat -> t !! j = Some tj -> t !! k = Some tk -> (tj < tk)%R) /\
    t !! 0%nat = Some 0%R /\
    (1 < N -> t !! Z.to_nat (N - 1) = Some 10%R).
Proof.
  intros HN. eexists _, _, _.
  split; [apply NotebookFacts.trajectory_closed_form; lia|].
  set (n := Z.to_nat N).
  assert (forall k : nat, (k < n)%nat ->
            (linspace_value 0 10 N <$> py_range n) !! k
            = Some (linspace_value 0 10 N (Z.of_nat k))) as Hlook.
  { intros k Hk. rewrite list_lookup_fmap, py_range_lookup by exact Hk.
    reflexivity. }
  rewrite !length_fmap, py_range_length.
  split; [lia|]. split; [lia|]. split; [lia|].
  split; [|split; [|split]].
  - intros k Hk. exists (linspace_value 0 10 N (Z.of_nat k)).
    rewrite !list_lookup_fmap, py_range_lookup by lia.
    repeat split; try reflexivity; apply linspace_value_range; lra || lia.
  - intros j k tj tk Hjk Hj Hk.
    assert (k < n)%nat as Hkn.
    { apply lookup_lt_Some in Hk. rewrite length_fmap, py_range_length in Hk.
      exact Hk. }
    rewrite Hlook in Hj by lia. rewrite Hlook in Hk by lia.
    injection Hj as <-. injection Hk as <-.
    apply linspace_value_lt; [lra | lia | lia].
  - rewrite Hlook by lia. change (Z.of_nat 0) with 0.
    rewrite linspace_value_first. reflexivity.
  - intros H1. rewrite Hlook by lia. rewrite Z2Nat.id by lia.
    rewrite linspace_value_last by exact H1. reflexivity.
Qed.

(** The notebook's own frame count. *)
Lemma C7_witness :
  exists t x y,
    Notebook.trajectory 128 = Some (t, x, y) /\
    Z.of_nat (length t) = 128 /\
    Z.of_nat (length x) = 128 /\
    Z.of_nat (length y) = 128 /\
    (forall k : nat, Z.of_nat k < 128 ->
       exists tk, t !! k = Some tk /\
                  x !! k = Some (sin tk) /\ y !! k = Some (cos tk) /\
                  (0 <= tk <= 10)%R) /\
    (forall (j k : nat) (tj tk : R),
       (j < k)%nat -> t !! j = Some tj -> t !! k = Some tk -> (tj < tk)%R) /\
    t !! 0%nat = Some 0%R /\
    (1 < 128 -> t !! Z.to_nat (128 - 1) = Some 10%R).
Proof. apply (C7_trajectory 128). lia. Defined.

(** ** Points of the trajectory and the unit circle *)

Lemma Rabs_le_bounds (v e : R) : (Rabs v <= e)%R -> (- e <= v <= e)%R.
Proof.
  unfold Rabs. destruct (Rcase_abs v) as [Hneg|Hpos]; intros Hv; lra.
Qed.

(** A point within [e] of a point of the unit circle, coordinate by
    coordinate, misses [x^2 + y^2 = 1] by at most [5 e]. *)
Lemma near_unit_circle (xk yk xf yf e : R) :
  (xk * xk + yk * yk = 1)%R -> (0 <= e <= 1 / 2)%R ->
  (Rabs (xf - xk) <= e)%R -> (Rabs (yf - yk) <= e)%R ->
  (Rabs (xf * xf + yf * yf - 1) <= 5 * e)%R.
Proof.
  intros Hcirc He Hx Hy.
  apply Rabs_le_bounds in Hx. apply Rabs_le_bounds in Hy.
  set (a := (xf - xk)%R) in *. set (b := (yf - yk)%R) in *.
  assert (-1 <= xk <= 1)%R as Hxk by nra.
  assert (-1 <= yk <= 1)%R as Hyk by nra.
  assert (- e <= xk * a <= e)%R as Hxa by nra.
  assert (- e <= yk * b <= e)%R as Hyb by nra.
  assert (0 <= a * a <= e * e)%R as Haa by nra.
  assert (0 <= b * b <= e * e)%R as Hbb by nra.
  assert (e * e <= e / 2)%R as Hee by nra.
  replace (xf * xf + yf * yf - 1)%R
    with (2 * (xk * a) + 2 * (yk * b) + a * a + b * b)%R
    by (unfold a, b; nra).
  apply Rabs_le. lra.
Qed.

(** C8.  For every [N > 0], every sample [(x[k], y[k])] of the generated
    trajectory lies on the unit circle: [x[k]^2 + y[k]^2 = 1] in exact
    arithmetic, and any pair of numbers that approximates the two
    coordinates to within a tolerance [e <= 1/2] (as the floating-point
    sine and cosine do) satisfies [|x^2 + y^2 - 1| <= 5 e]. *)
Theorem C8_unit_circle (N : Z) :
  0 < N ->
  exists t x y,
    Notebook.trajectory N = Some (t, x, y) /\
    forall k : nat, Z.of_nat k < N ->
      exists xk yk,
        x !! k = Some xk /\ y !! k = Some yk /\
        (xk * xk + yk * yk = 1)%R /\
        forall e xf yf : R,
          (0 <= e <= 1 / 2)%R ->
          (Rabs (xf - xk) <= e)%R -> (Rabs (yf - yk) <= e)%R ->
          (Rabs (xf * xf + yf * yf - 1) <= 5 * e)%R.
Proof.
  intros HN. eexists _, _, _.
  split; [apply NotebookFacts.trajectory_closed_form; lia|].
  intros k Hk.
  set (tk := linspace_value 0 10 N (Z.of_nat k)).
  exists (sin tk), (cos tk).
  rewrite !list_lookup_fmap, py_range_lookup by lia.
  assert (sin tk * sin tk + cos tk * cos tk = 1)%R as Hcirc.
  { pose proof (sin2_cos2 tk) as H. unfold Rsqr in H. exact H. }
  split; [reflexivity|]. split; [reflexivity|]. split; [exact Hcirc|].
  intros e xf yf. apply near_unit_circle, Hcirc.
Qed.

(** The notebook's own frame count. *)
Lemma C8_witness :
  exists t x y,
    Notebook.trajectory 128 = Some (t, x, y) /\
    forall k : nat, Z.of_nat k < 128 ->
      exists xk yk,
        x !! k = Some xk /\ y !! k = Some yk /\
        (xk * xk + yk * yk = 1)%R /\
        forall e xf yf : R,
          (0 <= e <= 1 / 2)%R ->
          (Rabs (xf - xk) <= e)%R -> (Rabs (yf - yk) <= e)%R ->
          (Rabs (xf * xf + yf * yf - 1) <= 5 * e)%R.
Proof. apply (C8_unit_circle 128). lia. Defined.

(** * Further properties of the code *)

(** ** Where indexing raises *)

Section IndexDomain.

Context {T : Type}.
Implicit Types (a : list T) (k : Z).

Lemma getitem_Some_lookup a k v :
  getitem a k = Some v ->
  a !! effective_index a k = Some v /\
  - Z.of_nat (length a) <= k < Z.of_nat (length a).
Proof.
  unfold getitem, effective_index. intros Hget.
  destruct (Z.ltb_spec k 0) as [Hneg|Hpos].
  - destruct (Z.leb_spec 0 (Z.of_nat (length a) + k)); [|discriminate].
    split; [exact Hget | lia].
  - split; [exact Hget|]. apply lookup_lt_Some in Hget. lia.
Qed.

Lemma getitem_is_Some a k :
  is_Some (getitem a k) <-> - Z.of_nat (length a) <= k < Z.of_nat (length a).
Proof.
  split.
  - intros [v Hv]. apply getitem_Some_lookup in Hv as [_ Hv]. exact Hv.
  - intros Hk. unfold getitem.
    destruct (Z.ltb_spec k 0) as [Hneg|Hpos].
    + destruct (Z.leb_spec 0 (Z.of_nat (length a) + k)); [|lia].
      apply lookup_lt_is_Some. lia.
    + apply lookup_lt_is_Some. lia.
Qed.

Lemma getitem_negative a k :
  - Z.of_nat (length a) <= k < 0 ->
  getitem a k = a !! Z.to_nat (Z.of_nat (length a) + k).
Proof.
  intros Hk. unfold getitem.
  destruct (Z.ltb_spec k 0); [|lia].
  destruct (Z.leb_spec 0 (Z.of_nat (length a) + k)); [reflexivity|lia].
Qed.

Lemma effective_index_same_length (a b : list T) k :
  length a = length b -> effective_index a k = effective_index b k.
Proof. unfold effective_index. intros ->. reflexivity. Qed.

End IndexDomain.

(** ** What one call of [update] can do to an artist *)

Section Touched.

Context {T : Type}.
Variables (x y : list T) (n_trails : Z).

Implicit Types (st : state T) (o : option (Line2D T)).

Lemma touched_refl o : touched x y o o.
Proof. left. reflexivity. Qed.

Lemma touched_trans o1 o2 o3 :
  touched x y o1 o2 -> touched x y o2 o3 -> touched x y o1 o3.
Proof.
  intros [->|(l & k & xv & yv & -> & Hx & Hy & ->)]; [auto|].
  intros [->|(l' & k' & xv' & yv' & Hl & Hx' & Hy' & ->)].
  - right. exists l, k, xv, yv. auto.
  - right. injection Hl as <-. exists l, k', xv', yv'. auto.
Qed.

Lemma touched_set_data st h k xv yv h' :
  getitem x k = Some xv -> getitem y k = Some yv ->
  touched x y (ax_lines st !! h')
    (ax_lines (call_set_data h [xv] [yv] st) !! h').
Proof.
  intros Hx Hy. rewrite call_set_data_lines, list_lookup_alter.
  destruct (decide (h = h')) as [->|Hne]; [|apply touched_refl].
  destruct (ax_lines st !! h') as [l|] eqn:Hl; [|apply touched_refl].
  right. exists l, k, xv, yv. auto.
Qed.

Lemma for_each_trail_step_touched ix jts st st' h :
  for_each (trail_step x y getitem ix) jts st = Some st' ->
  touched x y (ax_lines st !! h) (ax_lines st' !! h).
Proof.
  revert st. induction jts as [|[j tr] jts IH]; intros st Hrun.
  - cbn in Hrun. injection Hrun as <-. apply touched_refl.
  - cbn [for_each] in Hrun.
    destruct (trail_step x y getitem ix st (j, tr)) as [s1|] eqn:Hstep;
      [|discriminate].
    cbn in Hrun. apply IH in Hrun.
    eapply touched_trans; [|exact Hrun].
    unfold trail_step in Hstep. destruct (ix + j <? 0).
    { injection Hstep as <-. apply touched_refl. }
    destruct (getitem x (ix + j)) as [xv|] eqn:Hx; [|discriminate].
    destruct (getitem y (ix + j)) as [yv|] eqn:Hy; [|discriminate].
    cbn in Hstep. injection Hstep as <-.
    apply (touched_set_data st tr (ix + j)); assumption.
Qed.

Lemma update_touched i st st' r h :
  update x y n_trails i st = Some (st', r) ->
  touched x y (ax_lines st !! h) (ax_lines st' !! h).
Proof.
  unfold update, update_with. intros Hrun.
  destruct (getitem x i) as [xv|] eqn:Hx; [|discriminate].
  destruct (getitem y i) as [yv|] eqn:Hy; [|discriminate].
  cbn in Hrun.
  match type of Hrun with
  | context [for_each ?f ?l ?s] => destruct (for_each f l s) as [s1|] eqn:Hloop
  end; [|discriminate].
  cbn in Hrun. injection Hrun as <- _.
  eapply touched_trans;
    [|apply (for_each_trail_step_touched _ _ _ _ h Hloop)].
  apply (touched_set_data st (pt st) i); assumption.
Qed.

Lemma touched_drawn o o' l :
  touched x y o o' -> o = Some l -> drawn l = true ->
  exists l', o' = Some l' /\ drawn l' = true.
Proof.
  intros [->|(l0 & k & xv & yv & -> & _ & _ & ->)] Ho Hd.
  - exists l. auto.
  - eexists. split; reflexivity.
Qed.

Lemma touched_on_trajectory o o' l' :
  length y = length x ->
  touched x y o o' -> o' = Some l' ->
  (forall l, o = Some l -> on_trajectory x y l) ->
  on_trajectory x y l'.
Proof.
  intros Hlen [->|(l0 & k & xv & yv & -> & Hx & Hy & ->)] Ho Hprev.
  - apply Hprev, Ho.
  - injection Ho as <-. right.
    apply getitem_Some_lookup in Hx as [Hx _].
    apply getitem_Some_lookup in Hy as [Hy _].
    rewrite (effective_index_same_length y x k Hlen) in Hy.
    exists (effective_index x k), xv, yv. auto.
Qed.

End Touched.

(** ** [update] outside the frame indices *)

Section OutsideFrames.

Context {T : Type}.
Variables (x y alphas : list T) (n_trails n_frames : Z).

Hypothesis x_frames : Z.of_nat (length x) = n_frames.
Hypothesis y_frames : Z.of_nat (length y) = n_frames.
Hypothesis alphas_trails : Z.of_nat (length alphas) = n_trails.

Implicit Types (st : state T) (i : Z).

Lemma for_each_all_skipped ix jts st :
  Forall (fun jt : Z * nat => ix + jt.1 < 0) jts ->
  for_each (trail_step x y getitem ix) jts st = Some st.
Proof.
  induction 1 as [|[j h] jts Hj _ IH]; [reflexivity|].
  cbn [for_each trail_step]. cbn [fst] in Hj.
  destruct (Z.ltb_spec (ix + j) 0); [|lia]. cbn. exact IH.
Qed.

Lemma update_negative st i :
  reachable x y alphas n_trails st -> - n_frames <= i < 0 ->
  update x y n_trails i st
  = Some (call_set_data (pt st) (sample x (n_frames + i))
            (sample y (n_frames + i)) st,
          pt st :: trails st).
Proof.
  intros Hr Hi. pose proof (reach_trails_length x y alphas n_trails
                              alphas_trails st Hr) as HK.
  unfold update, update_with.
  rewrite !getitem_negative by lia. rewrite x_frames, y_frames.
  destruct (lookup_in_range x (n_frames + i)) as [xv Hxv]; [lia|].
  destruct (lookup_in_range y (n_frames + i)) as [yv Hyv]; [lia|].
  rewrite Hxv, Hyv. cbn [mbind option_bind].
  rewrite for_each_all_skipped.
  - cbn. rewrite (sample_in_range x _ xv Hxv), (sample_in_range y _ yv Hyv).
    reflexivity.
  - apply Forall_forall. intros jt Hjt. cbn in Hjt.
    apply (loop_indices_bounded x y ltac:(lia)) in Hjt. lia.
Qed.

Lemma update_raises st i :
  ~ (- n_frames <= i < n_frames) -> update x y n_trails i st = None.
Proof.
  intros Hout. unfold update, update_with.
  destruct (getitem x i) as [xv|] eqn:Hx; [|reflexivity].
  exfalso. apply Hout. rewrite <- x_frames.
  apply getitem_is_Some. eauto.
Qed.

End OutsideFrames.

(** ** The marker set *)

(** C10.  With [alphas = np.linspace(1.0, 0, n_trails)], every state the
    notebook reaches has [n_trails + 1] artists: the head (reference [0],
    no opacity given) and the trail markers in creation order (references
    [1..n_trails]), trail [p] keeping the opacity [alphas[p]] it was created
    with; the opacities start at [1], decrease strictly and end at [0].
    [init] hands back the head followed by the trails; so does [update(i)]
    for every index it accepts, which includes every frame index
    [0 <= i < n_frames] (it returns for [-n_frames <= i < n_frames]); both
    leave the references, the number of artists and their styles as they
    were. *)
Theorem C10_marker_set (x y alphas : list R) (n_trails : Z) (st : state R) :
  linspace 1 0 n_trails = Some alphas ->
  reachable x y alphas n_trails st ->
  Z.of_nat (length (ax_lines st)) = n_trails + 1 /\
  pt st = 0%nat /\ trails st = seq 1 (Z.to_nat n_trails) /\
  (exists hd, head st = Some hd /\ style hd = (15, "r"%string, None, None)) /\
  (forall p : nat, Z.of_nat p < n_trails ->
     exists l, trail st p = Some l /\
       style l = (6, "w"%string,
                  Some (linspace_value 1 0 n_trails (Z.of_nat p)),
                  Some (-1000))) /\
  linspace_value 1 0 n_trails 0 = 1%R /\
  (1 < n_trails -> linspace_value 1 0 n_trails (n_trails - 1) = 0%R) /\
  (forall p q, 0 <= p < q -> q < n_trails ->
     (linspace_value 1 0 n_trails q < linspace_value 1 0 n_trails p)%R) /\
  (init st).2 = pt st :: trails st /\
  pt (init st).1 = pt st /\ trails (init st).1 = trails st /\
  length (ax_lines (init st).1) = length (ax_lines st) /\
  style <$> ax_lines (init st).1 = style <$> ax_lines st /\
  (forall n_frames i,
     Z.of_nat (length x) = n_frames -> Z.of_nat (length y) = n_frames ->
     - n_frames <= i < n_frames ->
     exists st', update x y n_trails i st = Some (st', pt st :: trails st)) /\
  forall i st' r,
    update x y n_trails i st = Some (st', r) ->
    r = pt st :: trails st /\
    pt st' = pt st /\ trails st' = trails st /\
    length (ax_lines st') = length (ax_lines st) /\
    style <$> ax_lines st' = style <$> ax_lines st.
Proof.
  intros Hlin Hreach.
  assert (0 <= n_trails) as Hn.
  { unfold linspace in Hlin. destruct (Z.ltb_spec n_trails 0); [discriminate|lia]. }
  pose proof (linspace_length 1 0 n_trails Hn alphas Hlin) as Hlen.
  assert (Z.of_nat (length alphas) = n_trails) as Ha by lia.
  pose proof (reachable_marker_set x y alphas n_trails st Hreach) as (Hp & Ht & Hs).
  pose proof (reach_wf x y alphas n_trails Ha st Hreach) as Hwf.
  split; [rewrite (reachable_length x y alphas n_trails st Hreach); lia|].
  split; [exact Hp|]. split; [rewrite Ht, Hlen; reflexivity|].
  split; [|split; [|split; [|split; [|split]]]].
  - destruct (wf_head_is_Some n_trails st Hwf) as [hd Hhd]. exists hd.
    split; [exact Hhd|]. unfold head in Hhd. rewrite Hp in Hhd.
    apply (f_equal (fun ls => ls !! 0%nat)) in Hs.
    rewrite !list_lookup_fmap, Hhd, setup_eq in Hs. cbn in Hs.
    injection Hs as Hm Hc Hal Hz. unfold style.
    rewrite Hm, Hc, Hal, Hz. reflexivity.
  - intros p Hpn.
    destruct (reach_trail x y alphas n_trails Ha st p Hreach Hpn) as [l Hl].
    exists l. split; [exact Hl|].
    destruct (reachable_trail_style x y alphas n_trails st p l Hreach Hl)
      as (a & Hlook & ->).
    rewrite (linspace_lookup 1 0 n_trails Hn alphas p Hlin) in Hlook by lia.
    injection Hlook as <-. reflexivity.
  - apply linspace_value_first.
  - apply linspace_value_last.
  - intros p q Hpq Hq. apply linspace_value_gt; [lra | lia | lia].
  - destruct (init_refs st) as (Hip & Hit & Hir).
    split; [exact Hir|]. split; [exact Hip|]. split; [exact Hit|].
    split; [apply init_length|]. split; [apply init_style|].
    split.
    { intros n_frames i Hx Hy Hi. destruct (Z_lt_dec i 0) as [Hneg|Hpos].
      - eexists.
        apply (update_negative x y alphas n_trails n_frames Hx Hy Ha st i Hreach).
        lia.
      - eexists.
        apply (reachable_update_runs x y alphas n_trails n_frames Hx Hy Ha st i
                 Hreach).
        lia. }
    intros i st' r Hup.
    destruct (update_frame x y n_trails i st st' r Hup) as (Hr & Hp' & Ht' & Hs').
    repeat split; try assumption. apply fmap_style_length, Hs'.
Qed.

(** The marker set of the notebook right after the plotting cell. *)
Lemma C10_witness :
  Z.of_nat (length (ax_lines (setup Notebook.alphas))) = 8 + 1 /\
  pt (setup Notebook.alphas) = 0%nat /\
  trails (setup Notebook.alphas) = seq 1 (Z.to_nat 8) /\
  (exists hd, head (setup Notebook.alphas) = Some hd /\
              style hd = (15, "r"%string, None, None)) /\
  (forall p : nat, Z.of_nat p < 8 ->
     exists l, trail (setup Notebook.alphas) p = Some l /\
       style l = (6, "w"%string,
                  Some (linspace_value 1 0 8 (Z.of_nat p)),
                  Some (-1000))) /\
  linspace_value 1 0 8 0 = 1%R /\
  (1 < 8 -> linspace_value 1 0 8 (8 - 1) = 0%R) /\
  (forall p q, 0 <= p < q -> q < 8 ->
     (linspace_value 1 0 8 q < linspace_value 1 0 8 p)%R) /\
  (init (setup Notebook.alphas)).2
  = pt (setup Notebook.alphas) :: trails (setup Notebook.alphas) /\
  pt (init (setup Notebook.alphas)).1 = pt (setup Notebook.alphas) /\
  trails (init (setup Notebook.alphas)).1 = trails (setup Notebook.alphas) /\
  length (ax_lines (init (setup Notebook.alphas)).1)
  = length (ax_lines (setup Notebook.alphas)) /\
  style <$> ax_lines (init (setup Notebook.alphas)).1
  = style <$> ax_lines (setup Notebook.alphas) /\
  (forall n_frames i,
     Z.of_nat (length Notebook.x) = n_frames ->
     Z.of_nat (length Notebook.y) = n_frames ->
     - n_frames <= i < n_frames ->
     exists st',
       update Notebook.x Notebook.y 8 i (setup Notebook.alphas)
       = Some (st', pt (setup Notebook.alphas)
                    :: trails (setup Notebook.alphas))) /\
  forall i st' r,
    update Notebook.x Notebook.y 8 i (setup Notebook.alphas) = Some (st', r) ->
    r = pt (setup Notebook.alphas) :: trails (setup Notebook.alphas) /\
    pt st' = pt (setup Notebook.alphas) /\
    trails st' = trails (setup Notebook.alphas) /\
    length (ax_lines st') = length (ax_lines (setup Notebook.alphas)) /\
    style <$> ax_lines st' = style <$> ax_lines (setup Notebook.alphas).
Proof.
  apply (C10_marker_set Notebook.x Notebook.y Notebook.alphas 8).
  - apply NotebookFacts.arrays_defined.
  - apply reach_setup.
Defined.

(** X1.  On a marker set the notebook can reach, [update(i)] returns
    exactly for [-n_frames <= i < n_frames]; any other index raises
    ([IndexError] from [x[i]]). *)
Theorem X1_update_domain {T : Type} (x y alphas : list T)
    (n_trails n_frames : Z) (st : state T) (i : Z) :
  Z.of_nat (length x) = n_frames ->
  Z.of_nat (length y) = n_frames ->
  Z.of_nat (length alphas) = n_trails ->
  reachable x y alphas n_trails st ->
  (is_Some (update x y n_trails i st) <-> - n_frames <= i < n_frames).
Proof.
  intros Hx Hy Ha Hr. split.
  - intros [r Hr']. destruct (Z_lt_dec i n_frames) as [Hlt|Hge].
    + destruct (Z_le_dec (- n_frames) i) as [Hle|Hgt]; [lia|].
      rewrite (update_raises x y n_trails n_frames Hx st i) in Hr' by lia.
      discriminate.
    + rewrite (update_raises x y n_trails n_frames Hx st i) in Hr' by lia.
      discriminate.
  - intros Hi. destruct (Z_lt_dec i 0) as [Hneg|Hpos].
    + rewrite (update_negative x y alphas n_trails n_frames Hx Hy Ha st i Hr)
        by lia. eauto.
    + rewrite (reachable_update_runs x y alphas n_trails n_frames Hx Hy Ha st i Hr)
        by lia. eauto.
Qed.

(** Six frames, three trails: [update(-6)] and [update(5)] return,
    [update(-7)] and [update(6)] raise. *)
Lemma X1_witness :
  (is_Some (update Small.x Small.y Small.n_trails (-7) (setup Small.alphas))
   <-> - 6 <= -7 < 6) /\
  (is_Some (update Small.x Small.y Small.n_trails (-6) (setup Small.alphas))
   <-> - 6 <= -6 < 6).
Proof.
  split.
  - apply (X1_update_domain Small.x Small.y Small.alphas Small.n_trails 6);
      try reflexivity. apply reach_setup.
  - apply (X1_update_domain Small.x Small.y Small.alphas Small.n_trails 6);
      try reflexivity. apply reach_setup.
Defined.

(** X2.  A negative index [-n_frames <= i < 0] is not refused: [x[i]]
    counts from the end, so [update(i)] puts the head at sample
    [n_frames + i], and since every trail source index is then negative it
    changes no other artist. *)
Theorem X2_negative_frame_index {T : Type} (x y alphas : list T)
    (n_trails n_frames : Z) (st : state T) (i : Z) :
  Z.of_nat (length x) = n_frames ->
  Z.of_nat (length y) = n_frames ->
  Z.of_nat (length alphas) = n_trails ->
  reachable x y alphas n_trails st ->
  - n_frames <= i < 0 ->
  exists st' hd0 xv yv,
    update x y n_trails i st = Some (st', pt st :: trails st) /\
    x !! Z.to_nat (n_frames + i) = Some xv /\
    y !! Z.to_nat (n_frames + i) = Some yv /\
    head st = Some hd0 /\
    head st' = Some (set_data [xv] [yv] hd0) /\
    forall h, h <> pt st -> ax_lines st' !! h = ax_lines st !! h.
Proof.
  intros Hx Hy Ha Hr Hi.
  destruct (lookup_in_range x (n_frames + i)) as [xv Hxv]; [lia|].
  destruct (lookup_in_range y (n_frames + i)) as [yv Hyv]; [lia|].
  destruct (wf_head_is_Some n_trails st
              (reach_wf x y alphas n_trails Ha st Hr)) as [hd0 Hhd0].
  eexists _, hd0, xv, yv.
  split; [apply (update_negative x y alphas n_trails n_frames); assumption|].
  split; [exact Hxv|]. split; [exact Hyv|]. split; [exact Hhd0|].
  rewrite (sample_in_range x _ xv Hxv), (sample_in_range y _ yv Hyv).
  split.
  - unfold head in *. cbn. rewrite list_lookup_alter_eq, Hhd0. reflexivity.
  - intros h Hne. cbn. apply list_lookup_alter_ne. congruence.
Qed.

(** [update(-1)] on the full trail of frame [5]: the head jumps to the
    last sample, the trail stays. *)
Lemma X2_witness :
  let st := update_effect Small.x Small.y Small.n_trails 5
              (setup Small.alphas) in
  exists st' hd0 xv yv,
    update Small.x Small.y Small.n_trails (-1) st
    = Some (st', pt st :: trails st) /\
    Small.x !! Z.to_nat (6 + -1) = Some xv /\
    Small.y !! Z.to_nat (6 + -1) = Some yv /\
    head st = Some hd0 /\
    head st' = Some (set_data [xv] [yv] hd0) /\
    forall h, h <> pt st -> ax_lines st' !! h = ax_lines st !! h.
Proof.
  apply (X2_negative_frame_index Small.x Small.y Small.alphas Small.n_trails 6);
    try reflexivity; [|lia].
  eapply reach_update; [apply reach_setup|].
  instantiate (2 := 5). reflexivity.
Defined.

(** ** [init] *)

Section InitFacts.

Context {T : Type}.
Implicit Types (st : state T).

Lemma set_data_empty_id (l : Line2D T) :
  xdata l = [] -> ydata l = [] -> set_data [] [] l = l.
Proof. destruct l. cbn. intros -> ->. reflexivity. Qed.

Lemma init_cleared st h l :
  h ∈ pt st :: trails st -> ax_lines (init st).1 !! h = Some l ->
  xdata l = [] /\ ydata l = [].
Proof.
  intros Hin Hl. rewrite init_lookup, decide_True in Hl by exact Hin.
  destruct (ax_lines st !! h); [|discriminate].
  cbn in Hl. injection Hl as <-. auto.
Qed.

Lemma init_init st : (init (init st).1).1 = (init st).1.
Proof.
  destruct (init_refs st) as (Hp & Ht & _).
  destruct (init_refs (init st).1) as (Hp' & Ht' & _).
  apply state_ext; [exact Hp' | exact Ht' |].
  intros h. rewrite (init_lookup (init st).1), Hp, Ht, init_lookup.
  destruct (ax_lines st !! h); [|reflexivity]. cbn.
  destruct (decide (h ∈ pt st :: trails st)); reflexivity.
Qed.

Lemma filter_all_false (f : nat -> bool) (hs : list nat) :
  (forall h, h ∈ hs -> f h = false) -> List.filter f hs = [].
Proof.
  induction hs as [|h hs IH]; intros Hf; [reflexivity|].
  cbn. rewrite (Hf h) by apply list_elem_of_here.
  apply IH. intros h' Hh'. apply Hf, list_elem_of_further, Hh'.
Qed.

Lemma init_drawn_count st : drawn_count (init st).1 = 0%nat.
Proof.
  unfold drawn_count. rewrite filter_all_false; [reflexivity|].
  intros h Hh. destruct (init_refs st) as (_ & Ht & _). rewrite Ht in Hh.
  unfold drawn_ref.
  destruct (ax_lines (init st).1 !! h) as [l|] eqn:Hl; [|reflexivity].
  destruct (init_cleared st h l) as [Hx Hy];
    [apply list_elem_of_further, Hh | exact Hl |].
  unfold drawn. rewrite Hx, Hy. reflexivity.
Qed.

Lemma setup_lines_empty (alphas : list T) h l :
  ax_lines (setup alphas) !! h = Some l -> xdata l = [] /\ ydata l = [].
Proof.
  rewrite setup_eq. cbn [ax_lines]. rewrite lookup_cons.
  destruct h as [|h].
  - intros [= <-]. auto.
  - rewrite list_lookup_fmap. destruct (alphas !! h); [|discriminate].
    cbn. intros [= <-]. auto.
Qed.

Lemma init_setup (alphas : list T) : (init (setup alphas)).1 = setup alphas.
Proof.
  destruct (init_refs (setup alphas)) as (Hp & Ht & _).
  apply state_ext; [exact Hp | exact Ht |].
  intros h. rewrite init_lookup.
  destruct (ax_lines (setup alphas) !! h) as [l|] eqn:Hl; [|reflexivity].
  destruct (setup_lines_empty alphas h l Hl) as [Hx Hy].
  cbn [fmap option_fmap option_map].
  destruct (decide (h ∈ pt (setup alphas) :: trails (setup alphas)));
    [|reflexivity].
  rewrite set_data_empty_id by assumption. reflexivity.
Qed.

End InitFacts.

(** X3.  Whatever the marker set holds, [init] leaves the head and every
    trail marker empty (no trail slot drawn), returns the head followed by
    the trails, and a second [init] changes nothing more. *)
Theorem X3_init_clears {T : Type} (st : state T) :
  (init st).2 = pt st :: trails st /\
  (forall l, head (init st).1 = Some l -> xdata l = [] /\ ydata l = []) /\
  (forall p l, trail (init st).1 p = Some l -> xdata l = [] /\ ydata l = []) /\
  drawn_count (init st).1 = 0%nat /\
  (init (init st).1).1 = (init st).1.
Proof.
  destruct (init_refs st) as (Hp & Ht & Hr).
  split; [exact Hr|]. split; [|split; [|split]].
  - unfold head. rewrite Hp. intros l Hl.
    apply (init_cleared st (pt st) l); [apply list_elem_of_here | exact Hl].
  - unfold trail. rewrite Ht. intros p l Hl.
    destruct (trails st !! p) as [h|] eqn:Hh; [|discriminate]. cbn in Hl.
    apply (init_cleared st h l); [|exact Hl].
    apply list_elem_of_further. eapply list_elem_of_lookup_2, Hh.
  - apply init_drawn_count.
  - apply init_init.
Qed.

(** X4.  From every marker set the notebook can reach, [init] leads back
    to the marker set the plotting cell created: what earlier frames drew
    is forgotten, and [init] right after the plotting cell changes
    nothing. *)
Theorem X4_init_restores_setup {T : Type} (x y alphas : list T)
    (n_trails : Z) (st : state T) :
  reachable x y alphas n_trails st ->
  (init st).1 = setup alphas.
Proof.
  intros Hr.
  rewrite (init_resets x y alphas n_trails st (setup alphas) Hr (reach_setup _ _ _ _)).
  apply init_setup.
Qed.

(** [init] after the full trail of frame [5]. *)
Lemma X4_witness :
  (init (update_effect Small.x Small.y Small.n_trails 5
           (setup Small.alphas))).1
  = setup Small.alphas.
Proof.
  apply (X4_init_restores_setup Small.x Small.y Small.alphas Small.n_trails).
  eapply reach_update; [apply reach_setup|].
  instantiate (2 := 5). reflexivity.
Defined.

(** ** What [update] keeps *)

Lemma filter_length_le (f g : nat -> bool) (hs : list nat) :
  (forall h, h ∈ hs -> f h = true -> g h = true) ->
  (length (List.filter f hs) <= length (List.filter g hs))%nat.
Proof.
  induction hs as [|h hs IH]; intros Hfg; [reflexivity|].
  assert (length (List.filter f hs) <= length (List.filter g hs))%nat as Hrec.
  { apply IH. intros h' Hh'. apply Hfg, list_elem_of_further, Hh'. }
  cbn. destruct (f h) eqn:Hf.
  - rewrite (Hfg h (list_elem_of_here _ _) Hf). cbn. lia.
  - destruct (g h); cbn; lia.
Qed.

(** X5.  A call of [update] that returns, at whatever index, never empties
    a marker: every artist that was drawn before the call is drawn after
    it, so the number of drawn trail slots does not go down (only [init]
    clears). *)
Theorem X5_update_never_clears {T : Type} (x y : list T) (n_trails : Z)
    (i : Z) (st st' : state T) (r : list nat) :
  update x y n_trails i st = Some (st', r) ->
  (forall h l, ax_lines st !! h = Some l -> drawn l = true ->
     exists l', ax_lines st' !! h = Some l' /\ drawn l' = true) /\
  (drawn_count st <= drawn_count st')%nat.
Proof.
  intros Hup.
  assert (forall h l, ax_lines st !! h = Some l -> drawn l = true ->
            exists l', ax_lines st' !! h = Some l' /\ drawn l' = true) as Hkeep.
  { intros h l Hl Hd.
    apply (touched_drawn x y _ _ l (update_touched x y n_trails i st st' r h Hup));
      assumption. }
  split; [exact Hkeep|].
  destruct (update_frame x y n_trails i st st' r Hup) as (_ & _ & Ht & _).
  unfold drawn_count. rewrite Ht. apply filter_length_le.
  intros h _. unfold drawn_ref.
  destruct (ax_lines st !! h) as [l|] eqn:Hl; [|discriminate].
  intros Hd. destruct (Hkeep h l Hl Hd) as (l' & -> & Hd'). exact Hd'.
Qed.

(** Frame [1] called on the marker set of frame [3]. *)
Lemma X5_witness :
  let st := update_effect Small.x Small.y Small.n_trails 3
              (setup Small.alphas) in
  let st' := update_effect Small.x Small.y Small.n_trails 1 st in
  (forall h l, ax_lines st !! h = Some l -> drawn l = true ->
     exists l', ax_lines st' !! h = Some l' /\ drawn l' = true) /\
  (drawn_count st <= drawn_count st')%nat.
Proof.
  apply (X5_update_never_clears Small.x Small.y Small.n_trails 1 _ _
           [0; 1; 2; 3]%nat).
  reflexivity.
Defined.

Lemma reachable_on_trajectory {T : Type} (x y alphas : list T)
    (n_trails : Z) (st : state T) :
  length y = length x ->
  reachable x y alphas n_trails st ->
  Forall (on_trajectory x y) (ax_lines st).
Proof.
  intros Hlen Hr. apply Forall_lookup.
  induction Hr as [|st Hr IH|st i st' r Hr IH Hup]; intros h l Hl.
  - left. apply (setup_lines_empty alphas h l Hl).
  - rewrite init_lookup in Hl.
    destruct (ax_lines st !! h) as [l0|] eqn:Hl0; [|discriminate].
    cbn in Hl. destruct (decide (h ∈ pt st :: trails st)).
    + injection Hl as <-. left. auto.
    + injection Hl as <-. apply (IH h), Hl0.
  - apply (touched_on_trajectory x y (ax_lines st !! h) (ax_lines st' !! h) l Hlen).
    + apply (update_touched x y n_trails i st st' r h Hup).
    + exact Hl.
    + intros l0 Hl0. apply (IH h), Hl0.
Qed.

(** X6.  In every marker set the notebook can reach, each artist is
    empty or holds exactly one point, whose two coordinates are [x[m]] and
    [y[m]] for one and the same position [m] of the trajectory. *)
Theorem X6_markers_hold_samples {T : Type} (x y alphas : list T)
    (n_trails : Z) (st : state T) :
  length y = length x ->
  reachable x y alphas n_trails st ->
  Forall (on_trajectory x y) (ax_lines st).
Proof. apply reachable_on_trajectory. Qed.

(** The marker set after frames [3] and [-2]. *)
Lemma X6_witness :
  Forall (on_trajectory Small.x Small.y)
    (ax_lines
       (call_set_data 0 [14] [24]
          (update_effect Small.x Small.y Small.n_trails 3
             (setup Small.alphas)))).
Proof.
  apply (X6_markers_hold_samples Small.x Small.y Small.alphas Small.n_trails).
  - reflexivity.
  - eapply (reach_update _ _ _ _ _ (-2)).
    + eapply (reach_update _ _ _ _ _ 3); [apply reach_setup | reflexivity].
    + reflexivity.
Defined.

(** ** Frames drawn out of step *)

Section Absorbed.

Context {T : Type}.
Variables (x y alphas : list T) (n_trails n_frames : Z).

Hypothesis x_frames : Z.of_nat (length x) = n_frames.
Hypothesis y_frames : Z.of_nat (length y) = n_frames.
Hypothesis alphas_trails : Z.of_nat (length alphas) = n_trails.

Implicit Types (st : state T) (i : Z).

Lemma updates_cons k ks st :
  updates x y n_trails (k :: ks) st
  = (s ← fst <$> update x y n_trails k st; updates x y n_trails ks s).
Proof. reflexivity. Qed.

Lemma updates_absorbed i ks st :
  reachable x y alphas n_trails st -> 0 <= i < n_frames ->
  Forall (fun k => 0 <= k <= i) ks ->
  updates x y n_trails (ks ++ [i]) st
  = Some (update_effect x y n_trails i st).
Proof.
  intros Hr Hi Hks. revert st Hr.
  induction Hks as [|k ks Hk _ IH]; intros st Hr.
  - cbn [app]. rewrite updates_cons.
    rewrite (reachable_update_runs x y alphas n_trails n_frames) by assumption.
    reflexivity.
  - cbn [app]. rewrite updates_cons.
    rewrite (reachable_update_runs x y alphas n_trails n_frames)
      by (try assumption; lia).
    cbn [fmap option_fmap option_map fst mbind option_bind].
    rewrite IH.
    + f_equal. apply (update_effect_absorb x y n_trails).
      * apply (reach_wf x y alphas n_trails alphas_trails), Hr.
      * lia.
    + apply (reachable_update_effect x y alphas n_trails n_frames);
        try assumption; lia.
Qed.

End Absorbed.

(** X7.  On a reachable marker set, frame [i] overwrites whatever frames
    not later than [i] have drawn: calling [update] on any such frames, in
    any order, and then [update(i)] leaves the marker set exactly as
    [update(i)] alone does.  Frames may be dropped or repeated on the way to
    frame [i]. *)
Theorem X7_earlier_frames_absorbed {T : Type} (x y alphas : list T)
    (n_trails n_frames : Z) (st : state T) (i : Z) (ks : list Z) :
  Z.of_nat (length x) = n_frames ->
  Z.of_nat (length y) = n_frames ->
  Z.of_nat (length alphas) = n_trails ->
  reachable x y alphas n_trails st ->
  0 <= i < n_frames ->
  Forall (fun k => 0 <= k <= i) ks ->
  exists st',
    updates x y n_trails [i] st = Some st' /\
    updates x y n_trails (ks ++ [i]) st = Some st'.
Proof.
  intros Hx Hy Ha Hr Hi Hks.
  exists (update_effect x y n_trails i st). split.
  - apply (updates_absorbed x y alphas n_trails n_frames Hx Hy Ha i [] st Hr Hi).
    constructor.
  - apply (updates_absorbed x y alphas n_trails n_frames); assumption.
Qed.

(** Frames [2, 0, 4, 4, 1] before frame [4]. *)
Lemma X7_witness :
  exists st',
    updates Small.x Small.y Small.n_trails [4] (setup Small.alphas) = Some st' /\
    updates Small.x Small.y Small.n_trails ([2; 0; 4; 4; 1] ++ [4])
      (setup Small.alphas) = Some st'.
Proof.
  apply (X7_earlier_frames_absorbed Small.x Small.y Small.alphas
           Small.n_trails 6); try reflexivity.
  - apply reach_setup.
  - lia.
  - repeat constructor; lia.
Defined.

(** X8.  The trail is the recent path of the head: on a reachable marker
    set, the marker [trails[p]] after [update(i)] holds the position the
    head holds after [update(i - 1 - p)], for every [p < n_trails] with
    [p < i]. *)
Theorem X8_trail_follows_head {T : Type} (x y alphas : list T)
    (n_trails n_frames : Z) (st : state T) (i : Z) (p : nat) :
  Z.of_nat (length x) = n_frames ->
  Z.of_nat (length y) = n_frames ->
  Z.of_nat (length alphas) = n_trails ->
  reachable x y alphas n_trails st ->
  0 <= i < n_frames ->
  Z.of_nat p < n_trails -> Z.of_nat p < i ->
  exists s s' xv yv,
    update x y n_trails i st = Some (s, pt st :: trails st) /\
    update x y n_trails (i - 1 - Z.of_nat p) st = Some (s', pt st :: trails st) /\
    data (trail s p) = ([xv], [yv]) /\
    data (head s') = ([xv], [yv]).
Proof.
  intros Hx Hy Ha Hr Hi Hp Hpi.
  pose proof (reach_wf x y alphas n_trails Ha st Hr) as Hwf.
  destruct (lookup_in_range x (i - 1 - Z.of_nat p)) as [xv Hxv]; [lia|].
  destruct (lookup_in_range y (i - 1 - Z.of_nat p)) as [yv Hyv]; [lia|].
  destruct (reach_trail x y alphas n_trails Ha st p Hr Hp) as [l0 Hl0].
  destruct (wf_head_is_Some n_trails st Hwf) as [hd0 Hhd0].
  exists (update_effect x y n_trails i st),
    (update_effect x y n_trails (i - 1 - Z.of_nat p) st), xv, yv.
  split; [apply (reachable_update_runs x y alphas n_trails n_frames); assumption|].
  split; [apply (reachable_update_runs x y alphas n_trails n_frames);
          try assumption; lia|].
  rewrite trail_update_effect, head_update_effect by exact Hwf.
  rewrite Hl0, Hhd0. cbn [fmap option_fmap option_map].
  destruct (Z.ltb_spec (i - 1 - Z.of_nat p) 0); [lia|].
  unfold data.
  destruct (written_data x y (i - 1 - Z.of_nat p) l0 xv yv Hxv Hyv) as [-> ->].
  destruct (written_data x y (i - 1 - Z.of_nat p) hd0 xv yv Hxv Hyv) as [-> ->].
  split; reflexivity.
Qed.

(** The second trail marker at frame [5] and the head at frame [3]. *)
Lemma X8_witness :
  exists s s' xv yv,
    update Small.x Small.y Small.n_trails 5 (setup Small.alphas)
    = Some (s, pt (setup Small.alphas) :: trails (setup Small.alphas)) /\
    update Small.x Small.y Small.n_trails (5 - 1 - Z.of_nat 1)
      (setup Small.alphas)
    = Some (s', pt (setup Small.alphas) :: trails (setup Small.alphas)) /\
    data (trail s 1) = ([xv], [yv]) /\
    data (head s') = ([xv], [yv]).
Proof.
  apply (X8_trail_follows_head Small.x Small.y Small.alphas Small.n_trails 6);
    try reflexivity.
  - apply reach_setup.
  - lia.
Defined.

(** ** The animation for any frame count *)

Section AnyAnimation.

Context {T : Type}.
Variables (x y : list T) (n_trails : Z).

Hypothesis same_length : length y = length x.

Implicit Types (st : state T).

Lemma py_range_split (a b : nat) :
  py_range (a + S b)
  = py_range a ++ Z.of_nat a :: (Z.of_nat <$> seq (S a) b).
Proof.
  unfold py_range. rewrite seq_app, fmap_app. reflexivity.
Qed.

Lemma play_prefix (n : nat) st :
  wf n_trails st -> (n <= length x)%nat ->
  exists s fs,
    play x y n_trails (py_range n) st = Some (s, fs) /\ length fs = n /\
    (forall k : nat, (k < n)%nat ->
       fs !! k = Some (ax_lines (update_effect x y n_trails (Z.of_nat k) st))).
Proof.
  intros Hwf Hn. destruct n as [|m].
  - exists st, []. repeat split. intros k Hk. lia.
  - eexists _, _. split; [apply play_range; try assumption; lia|].
    split; [rewrite length_fmap; apply py_range_length|].
    intros k Hk. rewrite list_lookup_fmap, py_range_lookup by exact Hk.
    reflexivity.
Qed.

Lemma play_beyond (N : nat) st :
  wf n_trails st -> (length x < N)%nat ->
  play x y n_trails (py_range N) st = None.
Proof.
  intros Hwf HN.
  replace N with (length x + S (N - S (length x)))%nat by lia.
  rewrite py_range_split, play_app.
  destruct (play_prefix (length x) st Hwf (Nat.le_refl _)) as (s & fs & -> & _).
  cbn [mbind option_bind play].
  rewrite (update_raises x y n_trails (Z.of_nat (length x)) eq_refl) by lia.
  reflexivity.
Qed.

End AnyAnimation.

(** X9.  For any frame count equal to the length of the trajectory, the
    animation raises nothing and has exactly [n_frames] frames; frame [k]
    shows the marker set as [init] followed by [update(0)], ..., [update(k)]
    leaves it. *)
Theorem X9_animation_frames {T : Type} (x y alphas : list T)
    (n_trails n_frames : Z) (st : state T) :
  Z.of_nat (length x) = n_frames ->
  Z.of_nat (length y) = n_frames ->
  Z.of_nat (length alphas) = n_trails ->
  reachable x y alphas n_trails st ->
  exists final frames,
    FuncAnimation x y n_trails n_frames st = Some (final, frames) /\
    Z.of_nat (length frames) = n_frames /\
    forall k, 0 <= k < n_frames ->
      exists s,
        updates_to x y n_trails k (init st).1 = Some s /\
        frames !! Z.to_nat k = Some (ax_lines s).
Proof.
  intros Hx Hy Ha Hr. assert (length y = length x) as Hlen by lia.
  pose proof (reach_init _ _ _ _ st Hr) as Hr1.
  pose proof (reach_wf x y alphas n_trails Ha _ Hr1) as Hwf1.
  unfold FuncAnimation.
  destruct (play_prefix x y n_trails Hlen (Z.to_nat n_frames) (init st).1 Hwf1)
    as (s & fs & Hplay & Hfs & Hframe); [lia|].
  exists s, fs. split; [exact Hplay|]. split; [lia|].
  intros k Hk. exists (update_effect x y n_trails k (init st).1). split.
  - apply (reachable_updates_to x y alphas n_trails n_frames); assumption.
  - rewrite Hframe by lia. rewrite Z2Nat.id by lia. reflexivity.
Qed.

(** Six frames, three trails. *)
Lemma X9_witness :
  exists final frames,
    FuncAnimation Small.x Small.y Small.n_trails 6 (setup Small.alphas)
    = Some (final, frames) /\
    Z.of_nat (length frames) = 6 /\
    forall k, 0 <= k < 6 ->
      exists s,
        updates_to Small.x Small.y Small.n_trails k
          (init (setup Small.alphas)).1 = Some s /\
        frames !! Z.to_nat k = Some (ax_lines s).
Proof.
  apply (X9_animation_frames Small.x Small.y Small.alphas Small.n_trails 6);
    try reflexivity.
  apply reach_setup.
Defined.

(** X10.  Asking for more frames than the trajectory has samples makes
    the animation raise: frame [len(x)] reads [x[len(x)]]. *)
Theorem X10_too_many_frames {T : Type} (x y alphas : list T)
    (n_trails n_frames : Z) (st : state T) :
  length y = length x ->
  Z.of_nat (length alphas) = n_trails ->
  reachable x y alphas n_trails st ->
  Z.of_nat (length x) < n_frames ->
  FuncAnimation x y n_trails n_frames st = None.
Proof.
  intros Hlen Ha Hr HN. unfold FuncAnimation.
  apply (play_beyond x y n_trails Hlen); [|lia].
  apply (reach_wf x y alphas n_trails Ha), reach_init, Hr.
Qed.

(** Seven frames over six samples. *)
Lemma X10_witness :
  FuncAnimation Small.x Small.y Small.n_trails 7 (setup Small.alphas) = None.
Proof.
  apply (X10_too_many_frames Small.x Small.y Small.alphas);
    try reflexivity.
  apply reach_setup.
Defined.

(** X11.  The animation can be drawn again: started from any two marker
    sets the notebook can reach, it produces the same frames and ends in
    the same marker set (so the export of [ani.save] shows what the first
    drawing showed). *)
Theorem X11_animation_repeatable {T : Type} (x y alphas : list T)
    (n_trails n_frames : Z) (st st' : state T) :
  reachable x y alphas n_trails st ->
  reachable x y alphas n_trails st' ->
  FuncAnimation x y n_trails n_frames st
  = FuncAnimation x y n_trails n_frames st'.
Proof.
  intros Hr Hr'. unfold FuncAnimation.
  rewrite (init_resets x y alphas n_trails st st' Hr Hr'). reflexivity.
Qed.

(** From the plotting cell and from the marker set of frame [4]. *)
Lemma X11_witness :
  FuncAnimation Small.x Small.y Small.n_trails 6 (setup Small.alphas)
  = FuncAnimation Small.x Small.y Small.n_trails 6
      (update_effect Small.x Small.y Small.n_trails 4 (setup Small.alphas)).
Proof.
  apply (X11_animation_repeatable Small.x Small.y Small.alphas).
  - apply reach_setup.
  - eapply (reach_update _ _ _ _ _ 4); [apply reach_setup | reflexivity].
Defined.

(** ** Markers and the limits of the axes *)

Lemma unit_within_limits (v : R) :
  (-1 <= v <= 1)%R -> Axes.within Axes.xlim v /\ Axes.within Axes.ylim v.
Proof. unfold Axes.within, Axes.xlim, Axes.ylim. cbn. intros Hv. lra. Qed.

(** X12.  Whatever the frame count and the number of trails, every
    coordinate a marker ever holds lies strictly inside the limits given to
    [set_xlim] and [set_ylim]: the circle of radius [1] fits the axes of
    half-width [1.1], so no marker is cut off. *)
Theorem X12_markers_in_view (N n_trails : Z) (t x y alphas : list R)
    (st : state R) :
  Notebook.trajectory N = Some (t, x, y) ->
  reachable x y alphas n_trails st ->
  Forall Axes.in_view (ax_lines st).
Proof.
  intros Htraj Hr. unfold Notebook.trajectory in Htraj.
  destruct (linspace 0 10 N) as [t0|]; [|discriminate].
  cbn in Htraj. injection Htraj as _ <- <-.
  assert (length (cos <$> t0) = length (sin <$> t0)) as Hlen
    by (rewrite !length_fmap; reflexivity).
  pose proof (reachable_on_trajectory _ _ alphas n_trails st Hlen Hr) as Hon.
  eapply Forall_impl; [exact Hon|].
  intros l [[Hx Hy]|(m & xv & yv & Hxv & Hyv & Hx & Hy)];
    unfold Axes.in_view; rewrite Hx, Hy.
  - split; constructor.
  - rewrite list_lookup_fmap in Hxv, Hyv.
    destruct (t0 !! m) as [tm|]; [|discriminate].
    cbn in Hxv, Hyv. injection Hxv as <-. injection Hyv as <-.
    split; (constructor; [|constructor]).
    + apply unit_within_limits, SIN_bound.
    + apply unit_within_limits, COS_bound.
Qed.

(** The notebook after frame [100]. *)
Lemma X12_witness :
  Forall Axes.in_view
    (ax_lines
       (update_effect Notebook.x Notebook.y Notebook.n_trails 100
          (setup Notebook.alphas))).
Proof.
  apply (X12_markers_in_view Notebook.n_frames Notebook.n_trails Notebook.t
           Notebook.x Notebook.y Notebook.alphas).
  - apply NotebookFacts.arrays_defined.
  - apply (reachable_update_effect Notebook.x Notebook.y Notebook.alphas
             Notebook.n_trails Notebook.n_frames).
    + apply NotebookFacts.x_length.
    + apply NotebookFacts.y_length.
    + apply NotebookFacts.alphas_length.
    + apply reach_setup.
    + unfold Notebook.n_frames. lia.
Defined.

(** ** [linspace] at its edges *)

(** X13.  [np.linspace(start, stop, num)] raises exactly for a negative
    [num]; it returns the empty array for [num = 0], the single sample
    [start] for [num = 1] (where [stop] is ignored), and [num] samples
    whenever it returns. *)
Theorem X13_linspace_edges (start stop : R) :
  (forall num, linspace start stop num = None <-> num < 0) /\
  linspace start stop 0 = Some [] /\
  linspace start stop 1 = Some [start] /\
  forall num l, linspace start stop num = Some l -> Z.of_nat (length l) = num.
Proof.
  split; [|split; [|split]].
  - intros num. split.
    + intros Hnone. destruct (Z_lt_dec num 0) as [Hlt|Hge]; [exact Hlt|].
      rewrite linspace_closed_form in Hnone by lia. discriminate.
    + intros Hlt. unfold linspace. destruct (Z.ltb_spec num 0); [reflexivity|lia].
  - rewrite linspace_closed_form by lia. reflexivity.
  - rewrite linspace_closed_form by lia. reflexivity.
  - intros num l Hl.
    assert (0 <= num) as Hn.
    { destruct (Z_lt_dec num 0) as [Hlt|Hge]; [|lia].
      unfold linspace in Hl. destruct (Z.ltb_spec num 0); [discriminate|lia]. }
    rewrite (linspace_length start stop num Hn l Hl). lia.
Qed.

(** X14.  For [num >= 2], [np.linspace(start, stop, num)] starts exactly
    at [start], ends exactly at [stop], and (in exact arithmetic) any two
    neighbouring samples are [(stop - start) / (num - 1)] apart. *)
Theorem X14_linspace_even (start stop : R) (num : Z) :
  2 <= num ->
  exists l,
    linspace start stop num = Some l /\
    l !! 0%nat = Some start /\
    l !! Z.to_nat (num - 1) = Some stop /\
    forall k : nat, Z.of_nat k + 1 < num ->
      exists u v,
        l !! k = Some u /\ l !! S k = Some v /\
        (v - u = (stop - start) / IZR (num - 1))%R.
Proof.
  intros Hn. eexists. split; [apply linspace_closed_form; lia|].
  assert (forall k : nat, (k < Z.to_nat num)%nat ->
            (linspace_value start stop num <$> py_range (Z.to_nat num)) !! k
            = Some (linspace_value start stop num (Z.of_nat k))) as Hlook.
  { intros k Hk. rewrite list_lookup_fmap, py_range_lookup by exact Hk.
    reflexivity. }
  split; [|split].
  - rewrite Hlook by lia. change (Z.of_nat 0) with 0.
    rewrite linspace_value_first. reflexivity.
  - rewrite Hlook by lia. rewrite Z2Nat.id by lia.
    rewrite linspace_value_last by lia. reflexivity.
  - intros k Hk. eexists _, _.
    split; [apply Hlook; lia|]. split; [apply Hlook; lia|].
    unfold linspace_value. destruct (Z.leb_spec num 1); [lia|].
    rewrite Nat2Z.inj_succ, succ_IZR. field. apply not_0_IZR. lia.
Qed.

(** The eight opacities of the notebook. *)
Lemma X14_witness :
  exists l,
    linspace 1 0 8 = Some l /\
    l !! 0%nat = Some 1%R /\
    l !! Z.to_nat (8 - 1) = Some 0%R /\
    forall k : nat, Z.of_nat k + 1 < 8 ->
      exists u v,
        l !! k = Some u /\ l !! S k = Some v /\
        (v - u = (0 - 1) / IZR (8 - 1))%R.
Proof. apply (X14_linspace_even 1 0 8). lia. Defined.

(** ** The head marker *)

(** X15.  For [0 <= i < n_frames], [update(i)] leaves the head marker with
    exactly the sample [i] as its data and with its style untouched: the
    loop over the trails, whose references are all different from [pt],
    never writes to the head. *)
Theorem X15_head_at_frame {T : Type} (x y alphas : list T)
    (n_trails n_frames : Z) (st : state T) (i : Z) :
  Z.of_nat (length x) = n_frames ->
  Z.of_nat (length y) = n_frames ->
  Z.of_nat (length alphas) = n_trails ->
  reachable x y alphas n_trails st ->
  0 <= i < n_frames ->
  exists st' hd0 xv yv,
    update x y n_trails i st = Some (st', pt st :: trails st) /\
    x !! Z.to_nat i = Some xv /\ y !! Z.to_nat i = Some yv /\
    head st = Some hd0 /\
    head st' = Some (set_data [xv] [yv] hd0) /\
    pt st ∉ trails st.
Proof.
  intros Hx Hy Ha Hr Hi.
  pose proof (reach_wf x y alphas n_trails Ha st Hr) as Hwf.
  destruct (lookup_in_range x i) as [xv Hxv]; [lia|].
  destruct (lookup_in_range y i) as [yv Hyv]; [lia|].
  destruct (wf_head_is_Some n_trails st Hwf) as [hd0 Hhd0].
  exists (update_effect x y n_trails i st), hd0, xv, yv.
  split; [apply (reachable_update_runs x y alphas n_trails n_frames); assumption|].
  split; [exact Hxv|]. split; [exact Hyv|]. split; [exact Hhd0|].
  split.
  - rewrite head_update_effect by exact Hwf. rewrite Hhd0.
    unfold written.
    rewrite (sample_in_range x i xv Hxv), (sample_in_range y i yv Hyv).
    reflexivity.
  - destruct Hwf as (Hnd & _). apply NoDup_cons in Hnd as [Hfresh _].
    exact Hfresh.
Qed.

(** Frame [2] called on the full trail of frame [5]. *)
Lemma X15_witness :
  let st := update_effect Small.x Small.y Small.n_trails 5
              (setup Small.alphas) in
  exists st' hd0 xv yv,
    update Small.x Small.y Small.n_trails 2 st
    = Some (st', pt st :: trails st) /\
    Small.x !! Z.to_nat 2 = Some xv /\ Small.y !! Z.to_nat 2 = Some yv /\
    head st = Some hd0 /\
    head st' = Some (set_data [xv] [yv] hd0) /\
    pt st ∉ trails st.
Proof.
  apply (X15_head_at_frame Small.x Small.y Small.alphas Small.n_trails 6);
    try reflexivity; [|lia].
  eapply (reach_update _ _ _ _ _ 5); [apply reach_setup | reflexivity].
Defined.
